(** * tools.py: recording help tools

    A shallow embedding of the pieces of [tools.py] that carry the
    behaviour of the package:

    - [prepare_stimuli], the time-lagged design-matrix builder;
    - [time_to_stimuli], the epoch interval resolver;
    - [open_file], [result_text] and [save_results], the trial ledger;
    - [simplify_site_names], [load_datafile], [load_single_sites] and
      [single_site_similar_stim], the loaders and the stimulus listing.

    Conventions of the embedding.

    - A Python exception is a value of [exn]; a call that may raise returns
      a [result].
    - A Python [list] and a Python [str] are Rocq lists (a [str] is a list
      of characters), so that one definition of slicing, [slice], serves
      [val_epochs[a:b]] and [lines[0][0:-2]] alike.
    - A time in seconds is a rational number: a Python float that is
      neither NaN nor infinite denotes one.  Comparison, [math.floor] and
      the test [x % 1.5 == 0.0] are exact on floats and are computed on
      the rational; the float division [x / 1.5] rounds its exact
      quotient, and the rounding is a parameter [fl] of the model.
    - The entries of a stimulus array are values of an arbitrary type with
      a distinguished zero: the builder copies entries and never computes
      with them.
    - The ledger file is a text, or nothing when the path does not exist.
      [save_results] is the call as a function of the text that the reads
      of the call return; [save_results_stored] is the call as a function
      of the characters stored: a read in text mode returns them with
      [\r\n] and [\r] turned into [\n] ([universal_newlines]), and a write
      stores a line feed as it is, as on POSIX.  The two agree on a file
      that holds no carriage return.
    - The signal library is a parameter of the loaders: what
      [load_recording] returns for a path and which epoch names of a
      recording match.  The regular expressions of the module are
      matched by functions of their own, and a listing is the text that
      [print] writes. *)

From Stdlib Require Import ZArith QArith Qround Ascii String DecimalString Lia.
From stdpp Require Import base list.

(** ** Python runtime *)

Module Py.

(** The exceptions the three functions can raise. *)
Inductive exn : Set :=
  | StartIndexOutOfRange  (* ValueError("Start Index out of range") *)
  | EndIndexOutOfRange    (* ValueError("End Index out of range") *)
  | IndexError            (* subscript out of range *)
  | ShapeMismatch         (* numpy: ValueError raised by hstack *)
  | InvalidLiteral.       (* ValueError raised by int() *)

Inductive result (A : Type) : Type :=
  | Ok (a : A)
  | Raise (e : exn).
Arguments Ok {A} a.
Arguments Raise {A} e.

Definition bind {A B : Type} (m : result A) (k : A → result B) : result B :=
  match m with
  | Ok a => k a
  | Raise e => Raise e
  end.

(** [for x in xs: acc = body(x, acc)], stopping at the first exception. *)
Fixpoint for_each {X S : Type} (xs : list X) (body : X → S → result S)
    (acc : S) : result S :=
  match xs with
  | [] => Ok acc
  | x :: xs' => bind (body x acc) (for_each xs' body)
  end.

(** [range(n)] *)
Definition range (n : nat) : list nat := seq 0 n.

(** The bounds of [l[lo:hi]] as CPython adjusts them for a sequence of
    length [len]: a negative bound counts from the end, and the outcome is
    clipped to [0, len]. *)
Definition adjust_index (len i : Z) : Z :=
  let i := if (i <? 0)%Z then (i + len)%Z else i in
  if (i <? 0)%Z then 0%Z else if (len <? i)%Z then len else i.

(** [l[lo:hi]]; an omitted bound is [None]. *)
Definition slice {A : Type} (lo hi : option Z) (l : list A) : list A :=
  let len := Z.of_nat (length l) in
  let a := adjust_index len (default 0%Z lo) in
  let b := adjust_index len (default len hi) in
  take (Z.to_nat (b - a)) (drop (Z.to_nat a) l).

(** [l[i]] for a non-negative index. *)
Definition item {A : Type} (l : list A) (i : nat) : result A :=
  match l !! i with
  | Some x => Ok x
  | None => Raise IndexError
  end.

(** [l[-1]] *)
Definition item_last {A : Type} (l : list A) : result A :=
  match last l with
  | Some x => Ok x
  | None => Raise IndexError
  end.

End Py.

Import Py.

#[global] Instance result_mbind : MBind result := λ A B k m, Py.bind m k.

(** ** Times *)

Module Time.

(** [x < y] *)
Definition ltb (x y : Q) : bool := negb (Qle_bool y x).

(** [math.floor(x)] *)
Definition floor (x : Q) : Z := Qfloor x.

(** [x % y] for [y > 0]: the remainder has the sign of [y].  The float
    remainder is zero exactly when this one is: [fmod] is exact, and the
    correction that gives the remainder the sign of [y] never yields
    zero. *)
Definition pymod (x y : Q) : Q := x - y * inject_Z (Qfloor (x / y)).

(** The finite binary64 numbers: 53 bits of mantissa, the exponents of
    the subnormal and of the largest numbers at the ends. *)
Definition binary64 (x : Q) : Prop :=
  ∃ m e : Z,
    (Z.abs m < 2 ^ 53)%Z ∧ (-1074 ≤ e ≤ 971)%Z
    ∧ (x == inject_Z m * 2 ^ e)%Q.

(** What the model asks of the rounding [fl] of a float operation: it
    is monotone and leaves the binary64 numbers as they are.  The
    rounding to nearest of IEEE 754 is one such function. *)
Definition rounding (fl : Q → Q) : Prop :=
  (∀ x y, (x <= y)%Q → (fl x <= fl y)%Q)
  ∧ (∀ x, binary64 x → (fl x == x)%Q).

(** The rounding of exact arithmetic. *)
Definition exact (x : Q) : Q := x.

End Time.

(** ** Epoch interval resolver *)

(** The fixed epoch step, [1.5]. *)
Definition epoch_step : Q := 3 # 2.

(** [time_to_stimuli(signal, interval)], with [fl] the rounding of the
    float division.  The names that
    [epoch.epoch_names_matching(signal.epochs, "^STIM_00")] returns are the
    parameter [val_epochs]: the matcher belongs to the signal library. *)
Definition time_to_stimuli {name : Type} (fl : Q → Q)
    (val_epochs : list name) (interval : Q * Q)
    : result (list name * (Z * Z)) :=
  if Time.ltb (fst interval) 0 then Raise StartIndexOutOfRange
  else
    let index : Z * Z :=
      (Time.floor (fl (fst interval / epoch_step)%Q),
       Time.floor (fl (snd interval / epoch_step)%Q)) in
    let len := Z.of_nat (length val_epochs) in
    if (snd index =? len)%Z then
      Ok (slice (Some (fst index)) None val_epochs, index)
    else if (snd index >? len - 1)%Z then Raise EndIndexOutOfRange
    else if negb (snd index =? 0)%Z
            && Qeq_bool (Time.pymod (snd interval) epoch_step) 0 then
      Ok (slice (Some (fst index)) (Some (snd index)) val_epochs, index)
    else
      Ok (slice (Some (fst index)) (Some (snd index + 1)%Z) val_epochs,
          index).

(** ** Two-dimensional arrays *)

Module Np.

Section Array.
Context {A : Type}.

(** A two-dimensional [ndarray]: its shape and its rows.  The shape is
    kept apart from the rows because an array may have no row, or rows of
    no entry. *)
Record ndarray : Type := NDArray {
  nrows : nat;
  ncols : nat;
  rows : list (list A)
}.

(** The rows agree with the shape, as in every array numpy builds. *)
Definition wf (a : ndarray) : Prop :=
  length (rows a) = nrows a ∧ Forall (λ r, length r = ncols a) (rows a).

(** [a[r, c]] *)
Definition entry (a : ndarray) (r c : nat) : option A :=
  rows a !! r ≫= (.!! c).

(** Column [c] of [a], top to bottom. *)
Definition column (a : ndarray) (c : nat) : list (option A) :=
  (λ r, r !! c) <$> rows a.

(** [np.zeros((m, d))] *)
Definition zeros (zero : A) (m d : nat) : ndarray :=
  NDArray m d (replicate m (replicate d zero)).

(** [a[:m]] *)
Definition first_rows (m : nat) (a : ndarray) : ndarray :=
  NDArray (min m (nrows a)) (ncols a) (take m (rows a)).

(** [a[i]] *)
Definition row (a : ndarray) (i : nat) : result (list A) :=
  item (rows a) i.

(** [np.hstack((a, b))]: the row counts must agree. *)
Definition hstack (a b : ndarray) : result ndarray :=
  if decide (nrows a = nrows b) then
    Ok (NDArray (nrows a) (ncols a + ncols b)
          (zip_with app (rows a) (rows b)))
  else Raise ShapeMismatch.

(** [np.array([v]).T] and [np.reshape(v, (v.shape[0], 1))]: the vector [v]
    as one column. *)
Definition as_column (v : list A) : ndarray :=
  NDArray (length v) 1 ((λ x, [x]) <$> v).

(** [a.T] *)
Definition transpose (a : ndarray) : ndarray :=
  NDArray (ncols a) (nrows a)
    ((λ c, omap (.!! c) (rows a)) <$> seq 0 (ncols a)).

End Array.
Arguments ndarray A : clear implicits.

End Np.

Import Np.

(** ** Design matrix builder *)

Section DesignMatrix.
Context {A : Type} (zero : A).

(** The first lines of [prepare_stimuli]: the first [m] channels of the
    extracted slice, with [d] zero samples in front of each channel when
    [d > 0].  [stim] stands for
    [stim_signal.extract_epoch(np.array([list(interval)]))[0]]. *)
Definition pad_stimuli (stim : ndarray A) (m d : nat) : result (ndarray A) :=
  let stim_data := first_rows m stim in
  if decide (0 < d) then hstack (zeros zero m d) stim_data
  else Ok stim_data.

(** The column [stim_data[i][d - j : length_stim - j]] of the loop body. *)
Definition lag_slice (stim_data : ndarray A) (d i j : nat)
    : result (list A) :=
  let length_stim := ncols stim_data in
  r ← row stim_data i;
  Ok (slice (Some (Z.of_nat d - Z.of_nat j)%Z)
            (Some (Z.of_nat length_stim - Z.of_nat j)%Z) r).

(** [prepare_stimuli(stim_signal, interval, m, d)] for a channel count and
    a lag depth that are natural numbers: the builder is specified for
    [d >= 0]. *)
Definition prepare_stimuli (stim : ndarray A) (m d : nat)
    : result (ndarray A) :=
  stim_data ← pad_stimuli stim m d;
  let length_stim := ncols stim_data in
  channel0 ← row stim_data 0;
  let stim_matrix :=
    as_column (slice (Some (Z.of_nat d)) (Some (Z.of_nat length_stim))
                 channel0) in
  for_each (range m) (λ i stim_matrix,
    for_each (range (d + 1)) (λ j stim_matrix,
      if decide (i = 0 ∧ j = 0) then Ok stim_matrix
      else
        new ← lag_slice stim_data d i j;
        hstack stim_matrix (as_column new))
      stim_matrix)
    stim_matrix.

End DesignMatrix.

(** ** Text *)

Module Str.

(** A Python [str]. *)
Definition str : Type := list ascii.

(** A string literal. *)
Definition txt (s : string) : str := list_ascii_of_string s.

(** The escapes [\n] and [\t]. *)
Definition nl : ascii := ascii_of_nat 10.
Definition tab : ascii := ascii_of_nat 9.

(** [str(z)] and the f-string field [{z}] for an [int]. *)
Definition of_int (z : Z) : str :=
  txt (DecimalString.NilZero.string_of_int (Z.to_int z)).

(** [int(c)] for a string of the one character [c]. *)
Definition int_of_char (c : ascii) : result Z :=
  let n := nat_of_ascii c in
  if decide (48 ≤ n ≤ 57) then Ok (Z.of_nat (n - 48))
  else Raise InvalidLiteral.

(** [sep.join(parts)] *)
Fixpoint join (sep : str) (parts : list str) : str :=
  match parts with
  | [] => []
  | [p] => p
  | p :: ps => p ++ sep ++ join sep ps
  end.

(** [s.split(c)] for a separator of the one character [c]. *)
Fixpoint split (c : ascii) (s : str) : list str :=
  match s with
  | [] => [[]]
  | x :: s' =>
      if Ascii.eqb x c then [] :: split c s'
      else match split c s' with
           | p :: ps => (x :: p) :: ps
           | [] => [[x]]
           end
  end.

(** [f.readlines()] on the text [s]: every line keeps its newline. *)
Fixpoint readlines (s : str) : list str :=
  match s with
  | [] => []
  | x :: s' =>
      if Ascii.eqb x nl then [x] :: readlines s'
      else match readlines s' with
           | l :: ls => (x :: l) :: ls
           | [] => [[x]]
           end
  end.

End Str.

Import Str.

(** ** Trial result ledger *)

Section Ledger.
(** The numbers of a fit and their rendering by [str] and by an f-string
    field; the rendering of a float is the interpreter's. *)
Context {num : Type} (str_num : num → str).

Record RecordingData : Type := {
  coefficients : list num;
  intercepts : list num;
  d : Z;
  m : Z;
  r2 : num;
  mae : num;
  mse : num;
  function : str
}.

(** The file at [file_path]: its text, or [None] when the path does not
    exist. *)
Definition file : Type := option str.

(** [open_file(file_path)]: the text of the file, which is created empty
    when it is missing. *)
Definition open_file (f : file) : str * file :=
  match f with
  | Some content => (content, Some content)
  | None => ([], Some [])
  end.

(** [result_text(results, n)] *)
Definition result_text (results : RecordingData) (n : Z) : str :=
  let coefficients :=
    txt "[" ++ join (txt ", ") (str_num <$> coefficients results)
      ++ txt "]" in
  let intercepts :=
    txt "[" ++ join (txt ", ") (str_num <$> intercepts results)
      ++ txt "]" in
  txt "Trial: n=" ++ of_int n ++ txt ", m=" ++ of_int (m results)
    ++ txt ", d=" ++ of_int (d results) ++ [nl]
    ++ txt "Results:" ++ [nl]
    ++ [tab] ++ txt "Coefficients: " ++ coefficients ++ [nl]
    ++ [tab] ++ txt "Intercepts: " ++ intercepts ++ [nl]
    ++ [tab] ++ txt "R2: " ++ str_num (r2 results) ++ [nl]
    ++ [tab] ++ txt "MSE: " ++ str_num (mse results) ++ [nl]
    ++ [tab] ++ txt "MAE: " ++ str_num (mae results) ++ [nl]
    ++ [tab] ++ txt "Function: " ++ function results ++ [nl].

(** The branch [if len(content) != 0] of [save_results]: the count read
    off the last character of the first line, and the text written back
    with the first line rewritten.  [content] is the text as the reads of
    the call return it, and the lines written back are the lines read. *)
Definition bump_counter (content : str) : result (Z * str) :=
  let prev_text := split nl content in
  first ← item prev_text 0;
  last_char ← item_last first;
  n_trial ← int_of_char last_char;
  let lines := readlines content in
  line0 ← item lines 0;
  let lines :=
    <[0 := slice (Some 0%Z) (Some (-2)%Z) line0
             ++ of_int (n_trial + 1) ++ [nl]]> lines in
  Ok (n_trial, concat lines).

(** [save_results(results, file_path)], as a function of the file at
    [file_path]. *)
Definition save_results (results : RecordingData) (f : file) : result file :=
  let '(content, f) := open_file f in
  '(n_trial, text) ←
    (if decide (length content ≠ 0) then bump_counter content
     else Ok (0%Z, content));
  let n_trial := (n_trial + 1)%Z in
  let new_trial := result_text results n_trial in
  let text :=
    if decide (n_trial = 1%Z)
    then text ++ txt "N: " ++ of_int n_trial ++ [nl]
    else text in
  Ok (Some (text ++ new_trial)).

(** One [save_results] call per record, in order, on the same path. *)
Definition save_all (trials : list RecordingData) (f : file) : result file :=
  for_each trials save_results f.

End Ledger.
Arguments result_text : simpl never.

(** ** The ledger as stored *)

(** The escape [\r]. *)
Definition cr : ascii := ascii_of_nat 13.

(** What a read in text mode returns for the stored characters [s]: the
    file is opened with the default [newline=None], so that [\r\n] and a
    lone [\r] are read as [\n]. *)
Fixpoint universal_newlines (s : str) : str :=
  match s with
  | [] => []
  | c :: s' =>
      if Ascii.eqb c cr then
        nl :: match s' with
              | c' :: s'' =>
                  if Ascii.eqb c' nl then universal_newlines s''
                  else universal_newlines s'
              | [] => []
              end
      else c :: universal_newlines s'
  end.

Section LedgerStored.
Context {num : Type} (str_num : num → str).

(** [save_results(results, file_path)] as a function of the characters
    stored at [file_path].  The two reads of the call, [file.read()] in
    [open_file] and [file.readlines()], are reads in text mode, and
    [file.writelines(lines)] with [file.truncate()] stores the lines as
    they were read in place of the old characters: the call does to the
    stored characters what [save_results] does to the text read from
    them. *)
Definition save_results_stored (results : RecordingData) (f : file)
    : result file :=
  save_results str_num results (universal_newlines <$> f).

(** One [save_results] call per record, in order, on the same path. *)
Definition save_all_stored (trials : list RecordingData) (f : file)
    : result file :=
  for_each trials save_results_stored f.

End LedgerStored.

(** ** Examples *)

(** The record that the module saves when it is run as a script, its
    numbers already rendered. *)
Definition test_result : RecordingData (num := str) :=
  {| coefficients := [txt "0"; txt "1"; txt "2"]; intercepts := [txt "0"];
     d := 1; m := 2; r2 := txt "1.3"; mae := txt "4.432"; mse := txt "5.432";
     function := txt "test_function" |}.

(** The same record, with a carriage return in the name of its
    function. *)
Definition test_result_cr : RecordingData (num := str) :=
  {| coefficients := [txt "0"; txt "1"; txt "2"]; intercepts := [txt "0"];
     d := 1; m := 2; r2 := txt "1.3"; mae := txt "4.432"; mse := txt "5.432";
     function := txt "test" ++ [cr] ++ txt "function" |}.

(** Two channels of three samples. *)
Definition two_channels : ndarray Z := NDArray 2 3 [[1; 2; 3]; [4; 5; 6]]%Z.

(** One channel of three samples. *)
Definition one_channel : ndarray Z := NDArray 1 3 [[1; 2; 3]]%Z.

(** ** Vocabulary of the specification *)

(** [x] is an exact multiple of the epoch step. *)
Definition exact_multiple (x : Q) : Prop :=
  ∃ k : Z, x == inject_Z k * epoch_step.

(** The two out-of-range errors of the resolver. *)
Definition out_of_range {A : Type} (r : result A) : Prop :=
  r = Raise StartIndexOutOfRange ∨ r = Raise EndIndexOutOfRange.

(** The (channel, lag) pairs in column order: (0, 0) first, then the
    pairs with the channel outer and the lag inner, without (0, 0). *)
Definition column_order (m d : nat) : list (nat * nat) :=
  (0, 0) :: filter (λ p, p ≠ (0, 0))
              (i ← seq 0 m; (λ j, (i, j)) <$> seq 0 (d + 1)).
Arguments column_order : simpl never.

(** The pairs [(i, j)] with [i < m] and [j < n], the first component
    outer. *)
Definition grid (m n : nat) : list (nat * nat) :=
  i ← seq 0 m; (λ j, (i, j)) <$> seq 0 n.

(** The value of channel [i] at the time [k] samples before [t], and zero
    before the first sample. *)
Definition lagged {A : Type} (zero : A) (stim : ndarray A) (i k t : nat)
    : option A :=
  if decide (t < k) then Some zero else entry stim i (t - k).

(** The array with [n] rows whose columns are the functions [fs] of the
    row number. *)
Definition tabulate {A : Type} (n : nat) (fs : list (nat → A)) : ndarray A :=
  NDArray n (length fs) ((λ t, (λ f, f t) <$> fs) <$> seq 0 n).

(** The same value, for a position that exists. *)
Definition lag_value {A : Type} (zero : A) (stim : ndarray A) (i k t : nat)
    : A :=
  default zero (lagged zero stim i k t).

(** The time-lagged design matrix in closed form: one row per sample, one
    column per pair of [column_order]. *)
Definition design_matrix {A : Type} (zero : A) (stim : ndarray A)
    (m d : nat) : ndarray A :=
  tabulate (ncols stim)
    ((λ p, lag_value zero stim p.1 p.2) <$> column_order m d).

(** The stimulus with [d] zero samples in front of each of its first [m]
    channels. *)
Definition padded {A : Type} (zero : A) (stim : ndarray A) (m d : nat)
    : ndarray A :=
  NDArray m (d + ncols stim)
    ((λ r, replicate d zero ++ r) <$> take m (rows stim)).

(** A decimal digit. *)
Definition is_digit (c : ascii) : Prop := 48 ≤ nat_of_ascii c ≤ 57.

#[global] Instance is_digit_dec c : Decision (is_digit c) :=
  _ : Decision (48 ≤ nat_of_ascii c ≤ 57).

#[global] Instance ascii_eq_decision : EqDecision ascii := Ascii.ascii_dec.

(** The number a string of decimal digits denotes. *)
Definition digits_value (s : str) : Z :=
  foldl (λ acc c, 10 * acc + (Z.of_nat (nat_of_ascii c) - 48))%Z 0%Z s.

(** [int(s)] for an unsigned decimal numeral. *)
Definition int_of_str (s : str) : option Z :=
  if decide (s ≠ [] ∧ Forall is_digit s) then Some (digits_value s) else None.

(** The text of the ledger; a missing file has none. *)
Definition text_of (f : file) : str :=
  match f with
  | Some content => content
  | None => []
  end.

(** The counter of a ledger: the numeral after ["N: "] on its first line. *)
Definition counter (f : file) : option Z :=
  first ← head (split nl (text_of f));
  if decide (take 3 first = txt "N: ") then int_of_str (drop 3 first)
  else None.

(** A text that holds no carriage return. *)
Definition no_cr (s : str) : Prop := Forall (λ c, c ≠ cr) s.

(** A record whose fields are rendered without carriage return. *)
Definition plain {num : Type} (str_num : num → str)
    (r : RecordingData (num := num)) : Prop :=
  Forall (λ x, no_cr (str_num x)) (coefficients r)
  ∧ Forall (λ x, no_cr (str_num x)) (intercepts r)
  ∧ no_cr (str_num (r2 r)) ∧ no_cr (str_num (mse r))
  ∧ no_cr (str_num (mae r)) ∧ no_cr (function r).

(** The trial blocks of [trials], numbered from [n]. *)
Fixpoint trial_blocks {num : Type} (str_num : num → str) (n : Z)
    (trials : list (RecordingData (num := num))) : str :=
  match trials with
  | [] => []
  | r :: rs => result_text str_num r n ++ trial_blocks str_num (n + 1) rs
  end.

(** The ledger that holds [trials]: the count on the first line, then one
    block per trial, numbered from 1. *)
Definition ledger_text {num : Type} (str_num : num → str)
    (trials : list (RecordingData (num := num))) : str :=
  txt "N: " ++ of_int (Z.of_nat (length trials)) ++ [nl]
    ++ trial_blocks str_num 1 trials.

(** ** Dictionaries *)

Module Dict.

Section Dict.
Context {K V : Type} `{EqDecision K}.

(** A Python [dict]: its items in the order of insertion, one per key. *)
Definition dict : Type := list (K * V).

(** [d.get(k)]: [d[k]], or [None] when [k not in d]. *)
Fixpoint get (d : dict) (k : K) : option V :=
  match d with
  | [] => None
  | (k', v) :: d' => if decide (k' = k) then Some v else get d' k
  end.

(** [d[k] = v]: a key that is present keeps its place, a new key goes
    last. *)
Fixpoint set (d : dict) (k : K) (v : V) : dict :=
  match d with
  | [] => [(k, v)]
  | (k', v') :: d' =>
      if decide (k' = k) then (k', v) :: d' else (k', v') :: set d' k v
  end.

(** [list(d.keys())] *)
Definition keys (d : dict) : list K := fst <$> d.

End Dict.
Arguments dict K V : clear implicits.

End Dict.

(** ** Patterns *)

(** [s.startswith(p)] *)
Definition startswith (p s : str) : bool :=
  bool_decide (take (length p) s = p).

(** [s.endswith(c)] for a string of the one character [c]. *)
Definition endswith (c : ascii) (s : str) : bool :=
  bool_decide (last s = Some c).

Module Re.

(** The lazy group [(.*?)] followed by the literal [lit], matched at the
    start of [s]: the group is the shortest run of characters, none of
    them a newline, after which [lit] follows. *)
Fixpoint lazy_group (lit s : str) {struct s} : option str :=
  if startswith lit s then Some []
  else match s with
       | [] => None
       | x :: s' =>
           if Ascii.eqb x nl then None else cons x <$> lazy_group lit s'
       end.

(** [re.search]: the group of the match at the first position of [s],
    from the left, where the pattern matches; [at_start] matches the
    pattern at the start of a string. *)
Fixpoint search (at_start : str → option str) (s : str) : option str :=
  match at_start s with
  | Some g => Some g
  | None =>
      match s with
      | [] => None
      | _ :: s' => search at_start s'
      end
  end.

(** The digits that [\d+] takes after its first digit: as many as there
    are, for a digit is never the underscore that must follow. *)
Fixpoint skip_digits (s : str) : str :=
  match s with
  | c :: s' => if decide (is_digit c) then skip_digits s' else s
  | [] => []
  end.

(** [re.search(r"A1_(.*?)_", name)] and, for a match, [match.group(1)]. *)
Definition site (name : str) : option str :=
  search (λ s, if startswith (txt "A1_") s
               then lazy_group (txt "_") (drop 3 s) else None) name.

(** [re.search(r"rec\d+_(.*?)_excerpt", val)] and, for a match,
    [match.group(1)]. *)
Definition excerpt (val : str) : option str :=
  search (λ s,
    if startswith (txt "rec") s then
      match drop 3 s with
      | c :: s' =>
          if decide (is_digit c) then
            match skip_digits s' with
            | u :: s'' =>
                if Ascii.eqb u "_" then lazy_group (txt "_excerpt") s''
                else None
            | [] => None
            end
          else None
      | [] => None
      end
    else None) val.

End Re.

(** ** Paths *)

Module Os.

(** [os.path.join(a, b)], as [posixpath] defines it. *)
Definition join (a b : str) : str :=
  if startswith (txt "/") b then b
  else if bool_decide (a = []) || endswith "/" a then a ++ b
  else a ++ txt "/" ++ b.

End Os.

(** ** Site names *)

(** The statement [if k in d: d[k] += 1 else: d[k] = 1]. *)
Definition count_one (d : Dict.dict str Z) (k : str) : Dict.dict str Z :=
  match Dict.get d k with
  | Some n => Dict.set d k (n + 1)%Z
  | None => Dict.set d k 1%Z
  end.

(** [simplify_site_names(names)] *)
Definition simplify_site_names (names : list str) : Dict.dict str Z :=
  foldl (λ site_names name,
           match Re.site name with
           | Some g => count_one site_names g
           | None => site_names
           end) [] names.

(** ** Loaders and stimulus listings *)

(** The exceptions of the loaders and of the stimulus listing. *)
Inductive failure : Type :=
  | ListIndexError        (* IndexError: list index out of range *)
  | KeyError (key : str)  (* KeyError(key) *)
  | InvalidN (len : Z).
      (* IndexError("Invalid N. Length of the stimuli list: <len>") *)

Inductive outcome (A : Type) : Type :=
  | Returned (a : A)
  | Raised (e : failure).
Arguments Returned {A} a.
Arguments Raised {A} e.

(** [for x in xs: acc = body(x, acc)], stopping at the first exception. *)
Fixpoint each {X S : Type} (xs : list X) (body : X → S → outcome S)
    (acc : S) : outcome S :=
  match xs with
  | [] => Returned acc
  | x :: xs' =>
      match body x acc with
      | Returned acc' => each xs' body acc'
      | Raised e => Raised e
      end
  end.

(** [sorted(items, key=lambda x: x[1], reverse=True)]: the items by
    decreasing count, the items of one count in the order they had.  The
    sort of Python is stable, also when reversed, so that this order is
    the only one it can return; it is computed here by insertion. *)
Fixpoint insert_by_count (x : str * Z) (l : list (str * Z))
    : list (str * Z) :=
  match l with
  | [] => [x]
  | y :: l' =>
      if (x.2 <? y.2)%Z then y :: insert_by_count x l' else x :: y :: l'
  end.

Definition sorted_by_count (items : list (str * Z)) : list (str * Z) :=
  foldr insert_by_count [] items.

(** [print(f"({stimulus}: {occ})", end=" | ")] *)
Definition show_item (item : str * Z) : str :=
  txt "(" ++ item.1 ++ txt ": " ++ of_int item.2 ++ txt ")" ++ txt " | ".

Section Loaders.
(** The signal library.  [load_recording(datafile)] is taken to return a
    recording with a response signal, and [stim_epochs recording] stands
    for [epoch.epoch_names_matching(recording["resp"].epochs,
    "^STIM_00")]. *)
Context {Recording : Type} (load_recording : str → Recording).
Context (stim_epochs : Recording → list str).

(** [load_datafile(path)]; with [display] the call prints a banner
    first. *)
Definition load_datafile (path : str) : Recording :=
  let signals_dir := txt "file://" in
  let datafile := Os.join signals_dir path in
  load_recording datafile.

(** The body of the loop of [load_single_sites] at the index [i]:
    [single_site_recordings[single_site_names[i]] =
    load_datafile(os.path.join(dir_path, single_site_paths[i]))]. *)
Definition load_site (single_site_paths single_site_names : list str)
    (dir_path : str) (i : nat) (recordings : Dict.dict str Recording)
    : outcome (Dict.dict str Recording) :=
  match single_site_paths !! i, single_site_names !! i with
  | Some entry, Some name =>
      let path := Os.join dir_path entry in
      Returned (Dict.set recordings name (load_datafile path))
  | _, _ => Raised ListIndexError
  end.

(** [load_single_sites(dir_path)], with [listing] what
    [os.listdir(dir_path)] returns.  The two calls of [print] before the
    return write to the console; the second one looks up the site
    ["ARM031a"] among the recordings. *)
Definition load_single_sites (listing : list str) (dir_path : str)
    : outcome (Dict.dict str Recording) :=
  let single_site_paths := listing in
  let single_site_names :=
    Dict.keys (simplify_site_names single_site_paths) in
  match each (range (length single_site_paths))
          (load_site single_site_paths single_site_names dir_path) [] with
  | Returned recordings =>
      match Dict.get recordings (txt "ARM031a") with
      | Some _ => Returned recordings
      | None => Raised (KeyError (txt "ARM031a"))
      end
  | Raised e => Raised e
  end.

(** [single_site_similar_stim(site, top_n)]: what the call prints, and
    how it ends. *)
Definition single_site_similar_stim (site : str) (top_n : Z)
    : str * outcome unit :=
  let path := Os.join (txt "A1_single_sites") site in
  let recording := load_datafile path in
  let val_epochs := stim_epochs recording in
  let '(stim, out) :=
    foldl (λ '(stim, out) val,
             match Re.excerpt val with
             | Some text => (count_one stim text, out)
             | None => (stim, out ++ txt "Not found" ++ [nl])
             end)
      ([], []) val_epochs in
  let sorted_stim := sorted_by_count stim in
  if decide (0 < top_n < Z.of_nat (length sorted_stim))%Z then
    let sorted_stim := slice None (Some top_n) sorted_stim in
    (out ++ concat (show_item <$> sorted_stim) ++ [nl], Returned tt)
  else
    (out, Raised (InvalidN (Z.of_nat (length sorted_stim)))).

End Loaders.

(** ** Vocabulary of the listings *)

(** The number of items of [l] whose group is [k]. *)
Definition occurrences {X : Type} (group : X → option str) (k : str)
    (l : list X) : Z :=
  Z.of_nat (length (filter (λ x, group x = Some k) l)).

(** The loop that counts the items of [l] by group into [d]:
    [for x in l: if match: (count the group of x)]. *)
Definition count_all {X : Type} (group : X → option str)
    (d : Dict.dict str Z) (l : list X) : Dict.dict str Z :=
  foldl (λ d x, match group x with
                | Some k => count_one d k
                | None => d
                end) d l.

(** A listing by decreasing count: every item has at least the count of
    every later item. *)
Fixpoint descending (l : list (str * Z)) : Prop :=
  match l with
  | [] => True
  | x :: l' => Forall (λ y, (y.2 ≤ x.2)%Z) l' ∧ descending l'
  end.

(** One line ["Not found"] per epoch name without excerpt. *)
Definition not_found (val_epochs : list str) : str :=
  concat ((λ _, txt "Not found" ++ [nl])
            <$> filter (λ val, Re.excerpt val = None) val_epochs).

(** ** Example of a listing *)

(** Four epoch names: two with the excerpt [cat], one with [dog], one
    without excerpt. *)
Definition example_epochs : list str :=
  [txt "STIM_00cat_rec1_cat_excerpt1.wav";
   txt "STIM_00dog_rec2_dog_excerpt1.wav";
   txt "STIM_00cat_rec3_cat_excerpt2.wav";
   txt "STIM_00silence.wav"].


(** * Properties *)

(** ** Loops *)

Lemma for_each_app {X S : Type} (xs ys : list X) (body : X → S → result S)
    (acc : S) :
  for_each (xs ++ ys) body acc
  = Py.bind (for_each xs body acc) (for_each ys body).
Proof.
  revert acc. induction xs as [|x xs IH]; intros acc; [done|].
  simpl. destruct (body x acc); simpl; [apply IH|done].
Qed.

(** ** Slices *)

Section Slices.
Context {A : Type}.
Implicit Types l : list A.

Lemma slice_take_drop l (a b : nat) :
  a ≤ b ≤ length l →
  slice (Some (Z.of_nat a)) (Some (Z.of_nat b)) l = take (b - a) (drop a l).
Proof.
  intros Hab. unfold slice, adjust_index. simpl.
  repeat case_match; rewrite ?Z.ltb_lt, ?Z.ltb_ge in *; try lia.
  rewrite Nat2Z.id. f_equal. lia.
Qed.

Lemma slice_from l (a : nat) : slice (Some (Z.of_nat a)) None l = drop a l.
Proof.
  unfold slice, adjust_index. simpl.
  repeat case_match; rewrite ?Z.ltb_lt, ?Z.ltb_ge in *; try lia.
  - rewrite Z.sub_diag. simpl. symmetry. apply drop_ge. lia.
  - rewrite Nat2Z.id, take_ge; [done|]. rewrite length_drop. lia.
Qed.

Lemma slice_prefix l (b : nat) :
  slice (Some 0%Z) (Some (Z.of_nat b)) l = take b l.
Proof.
  unfold slice, adjust_index. simpl.
  repeat case_match; rewrite ?Z.ltb_lt, ?Z.ltb_ge in *; try lia.
  - rewrite Z.sub_0_r, Nat2Z.id. change (Z.to_nat 0) with 0.
    rewrite drop_0, !take_ge; [done|lia..].
  - by rewrite Z.sub_0_r, Nat2Z.id.
Qed.

(** A slice whose upper bound is non-negative and not above its lower
    bound is empty. *)
Lemma slice_empty l (lo hi : Z) :
  (0 ≤ hi ≤ lo)%Z → slice (Some lo) (Some hi) l = [].
Proof.
  intros H. unfold slice, adjust_index. simpl.
  repeat case_match; rewrite ?Z.ltb_lt, ?Z.ltb_ge in *; try lia;
    match goal with |- take ?n _ = _ => replace n with 0 by lia end; done.
Qed.

(** [l[0:-2]] drops the last two items. *)
Lemma slice_drop_last_two l (x y : A) :
  slice (Some 0%Z) (Some (-2)%Z) (l ++ [x; y]) = l.
Proof.
  unfold slice, adjust_index. rewrite length_app. simpl.
  repeat case_match; rewrite ?Z.ltb_lt, ?Z.ltb_ge in *; try lia.
  rewrite Z.sub_0_r. change (Z.to_nat 0) with 0. rewrite drop_0.
  replace (Z.to_nat (-2 + Z.of_nat (length l + 2))) with (length l) by lia.
  by rewrite take_app_length.
Qed.

End Slices.

(** ** Epoch interval resolver *)

Section Rounding.
Local Open Scope Q_scope.

Lemma exact_rounding : Time.rounding Time.exact.
Proof. split; [done|]. by intros x _. Qed.

(** A quotient that is a small integer is not rounded. *)
Lemma floor_rounded_integer fl x (k : Z) :
  Time.rounding fl → (Z.abs k < 2 ^ 53)%Z → x == inject_Z k →
  Qfloor (fl x) = k.
Proof.
  intros [_ Hexact] Hk Hx.
  assert (Hfl : fl x == inject_Z k).
  { rewrite Hexact; [done|]. exists k, 0%Z. repeat split; [done..|].
    rewrite Hx. simpl. ring. }
  by rewrite (Qfloor_comp _ _ Hfl), Qfloor_Z.
Qed.

(** The float quotient 2.0 / 1.5 lies between 1 and 1.5, whatever the
    rounding. *)
Lemma floor_rounded_four_thirds fl :
  Time.rounding fl → Qfloor (fl (2 / epoch_step)) = 1%Z.
Proof.
  intros [Hmono Hexact].
  assert (H1 : fl 1 == 1) by (apply Hexact; by exists 1%Z, 0%Z).
  assert (H2 : fl (3 # 2) == 3 # 2) by (apply Hexact; by exists 3%Z, (-1)%Z).
  assert (Hlo : 1 <= fl (2 / epoch_step)).
  { rewrite <- H1. by apply Hmono. }
  assert (Hhi : fl (2 / epoch_step) <= 3 # 2).
  { rewrite <- H2. by apply Hmono. }
  apply Qfloor_resp_le in Hlo, Hhi.
  change (Qfloor 1) with 1%Z in Hlo. change (Qfloor (3 # 2)) with 1%Z in Hhi.
  lia.
Qed.

End Rounding.

Section Resolver.
Context {name : Type} (fl : Q → Q).
Implicit Types (val_epochs : list name) (start stop : Q).
Local Open Scope Q_scope.

Lemma ltb_zero_false start : 0 <= start → Time.ltb start 0 = false.
Proof.
  intros H. unfold Time.ltb. apply negb_false_iff. by apply Qle_bool_iff.
Qed.

Lemma ltb_zero_true start : start < 0 → Time.ltb start 0 = true.
Proof.
  intros H. unfold Time.ltb. apply negb_true_iff.
  destruct (Qle_bool 0 start) eqn:E; [|done].
  apply Qle_bool_iff in E. exfalso. by apply (Qlt_not_le start 0).
Qed.

(** The test [x % 1.5 == 0.0] holds exactly of the multiples of 1.5. *)
Lemma pymod_zero_iff x :
  Qeq_bool (Time.pymod x epoch_step) 0 = true ↔ exact_multiple x.
Proof.
  rewrite Qeq_bool_iff. unfold Time.pymod, exact_multiple. split.
  - intros H. exists (Qfloor (x / epoch_step)).
    rewrite <- (Qplus_0_r (_ * _)), <- H. ring.
  - intros [k Hk].
    assert (Hq : x / epoch_step == inject_Z k).
    { rewrite Hk. unfold epoch_step. field. }
    rewrite (Qfloor_comp _ _ Hq), Qfloor_Z, Hk. ring.
Qed.

Lemma time_to_stimuli_negative_start val_epochs start stop :
  start < 0 →
  time_to_stimuli fl val_epochs (start, stop) = Raise StartIndexOutOfRange.
Proof.
  intros H. unfold time_to_stimuli. simpl. by rewrite ltb_zero_true.
Qed.

(** The case analysis of the resolver, once the start is known not to be
    negative. *)
Lemma time_to_stimuli_cases val_epochs start stop :
  0 <= start →
  let si := Qfloor (fl (start / epoch_step)) in
  let ei := Qfloor (fl (stop / epoch_step)) in
  let count := Z.of_nat (length val_epochs) in
  (ei = count →
     time_to_stimuli fl val_epochs (start, stop)
     = Ok (slice (Some si) None val_epochs, (si, ei)))
  ∧ (ei ≠ count → (ei > count - 1)%Z →
     time_to_stimuli fl val_epochs (start, stop) = Raise EndIndexOutOfRange)
  ∧ ((ei ≤ count - 1)%Z → ei ≠ 0%Z → exact_multiple stop →
     time_to_stimuli fl val_epochs (start, stop)
     = Ok (slice (Some si) (Some ei) val_epochs, (si, ei)))
  ∧ ((ei ≤ count - 1)%Z → ei = 0%Z ∨ ¬ exact_multiple stop →
     time_to_stimuli fl val_epochs (start, stop)
     = Ok (slice (Some si) (Some (ei + 1)%Z) val_epochs, (si, ei))).
Proof.
  intros Hstart si ei count.
  unfold time_to_stimuli, Time.floor. cbn [fst snd].
  rewrite (ltb_zero_false _ Hstart). fold si ei count.
  repeat split.
  - intros E. by rewrite E, Z.eqb_refl.
  - intros Hne Hgt. apply Z.eqb_neq in Hne. rewrite Hne.
    apply Z.gtb_gt in Hgt. by rewrite Hgt.
  - intros Hle Hnz Hmul.
    replace (ei =? count)%Z with false by (symmetry; apply Z.eqb_neq; lia).
    replace (ei >? count - 1)%Z with false
      by (symmetry; rewrite Z.gtb_ltb; apply Z.ltb_ge; lia).
    apply Z.eqb_neq in Hnz. rewrite Hnz.
    apply pymod_zero_iff in Hmul. by rewrite Hmul.
  - intros Hle Hcase.
    replace (ei =? count)%Z with false by (symmetry; apply Z.eqb_neq; lia).
    replace (ei >? count - 1)%Z with false
      by (symmetry; rewrite Z.gtb_ltb; apply Z.ltb_ge; lia).
    destruct Hcase as [-> | Hnot]; [done|].
    destruct (Qeq_bool (Time.pymod stop epoch_step) 0) eqn:E.
    + by apply pymod_zero_iff in E.
    + by rewrite andb_false_r.
Qed.

(** The interval (0.0, 3.0). *)
Lemma time_to_stimuli_0_3 val_epochs :
  Time.rounding fl → (2 ≤ length val_epochs)%nat →
  time_to_stimuli fl val_epochs (0, 3) = Ok (take 2 val_epochs, (0, 2)%Z).
Proof.
  intros Hfl Hlen.
  destruct (time_to_stimuli_cases val_epochs 0 3) as (Heq & _ & Hmul & _);
    [done|].
  rewrite (floor_rounded_integer fl (0 / epoch_step) 0) in * by done.
  rewrite (floor_rounded_integer fl (3 / epoch_step) 2) in * by done.
  destruct (decide (length val_epochs = 2%nat)) as [E|E].
  - rewrite Heq by lia. rewrite (slice_from _ 0), drop_0.
    by rewrite take_ge by lia.
  - rewrite Hmul; [|lia|done|by exists 2%Z].
    by rewrite (slice_prefix _ 2).
Qed.

(** The interval (0.0, 2.0). *)
Lemma time_to_stimuli_0_2 val_epochs :
  Time.rounding fl → (1 ≤ length val_epochs)%nat →
  time_to_stimuli fl val_epochs (0, 2) = Ok (take 2 val_epochs, (0, 1)%Z).
Proof.
  intros Hfl Hlen.
  destruct (time_to_stimuli_cases val_epochs 0 2) as (Heq & _ & _ & Hrest);
    [done|].
  rewrite (floor_rounded_integer fl (0 / epoch_step) 0) in * by done.
  rewrite (floor_rounded_four_thirds fl) in * by done.
  destruct (decide (length val_epochs = 1%nat)) as [E|E].
  - rewrite Heq by lia. rewrite (slice_from _ 0), drop_0.
    by rewrite take_ge by lia.
  - rewrite Hrest; [|lia|].
    + by rewrite (slice_prefix _ 2).
    + right. intros Hmul. apply pymod_zero_iff in Hmul. discriminate.
Qed.

(** The interval (0.0, -3.0) on five epochs. *)
Lemma time_to_stimuli_0_minus_3 (e1 e2 e3 e4 e5 : name) :
  Time.rounding fl →
  time_to_stimuli fl [e1; e2; e3; e4; e5] (0, -3)
  = Ok ([e1; e2; e3], (0, -2)%Z).
Proof.
  intros Hfl.
  destruct (time_to_stimuli_cases [e1; e2; e3; e4; e5] 0 (-3))
    as (_ & _ & Hmul & _); [done|].
  rewrite (floor_rounded_integer fl (0 / epoch_step) 0) in * by done.
  rewrite (floor_rounded_integer fl (-3 / epoch_step) (-2)) in * by done.
  rewrite Hmul; [done|simpl; lia|done|by exists (-2)%Z].
Qed.

(** C2.  For an interval whose start is not negative, the resolver takes
    the start index [floor(start / 1.5)] and the end index
    [floor(end / 1.5)], the quotients being those of the float division,
    and answers by four cases: when the end index equals the number of
    matching epochs, the tail [epochs[start_index:]]; else, when the end
    index exceeds that number minus one, the end-out-of-range error; else,
    when the end index is not zero and the end is an exact multiple of
    1.5, the half-open [epochs[start_index:end_index]]; in the remaining
    case [epochs[start_index:end_index + 1]].  With at least two matching
    epochs the interval (0.0, 3.0) gives the index pair (0, 2) and the
    first two epochs only, and the interval (0.0, 2.0) gives
    [epochs[0:2]]. *)
Theorem time_to_stimuli_policy val_epochs :
  (∀ start stop,
     0 <= start →
     let si := Qfloor (fl (start / epoch_step)) in
     let ei := Qfloor (fl (stop / epoch_step)) in
     let count := Z.of_nat (length val_epochs) in
     (ei = count →
        time_to_stimuli fl val_epochs (start, stop)
        = Ok (slice (Some si) None val_epochs, (si, ei)))
     ∧ (ei ≠ count → (ei > count - 1)%Z →
        time_to_stimuli fl val_epochs (start, stop)
        = Raise EndIndexOutOfRange)
     ∧ ((ei ≤ count - 1)%Z → ei ≠ 0%Z → exact_multiple stop →
        time_to_stimuli fl val_epochs (start, stop)
        = Ok (slice (Some si) (Some ei) val_epochs, (si, ei)))
     ∧ ((ei ≤ count - 1)%Z → ei = 0%Z ∨ ¬ exact_multiple stop →
        time_to_stimuli fl val_epochs (start, stop)
        = Ok (slice (Some si) (Some (ei + 1)%Z) val_epochs, (si, ei))))
  ∧ (Time.rounding fl → (2 ≤ length val_epochs)%nat →
     time_to_stimuli fl val_epochs (0, 3) = Ok (take 2 val_epochs, (0, 2)%Z)
     ∧ time_to_stimuli fl val_epochs (0, 2)
       = Ok (slice (Some 0%Z) (Some 2%Z) val_epochs, (0, 1)%Z)).
Proof.
  split.
  - intros start stop Hstart. by apply time_to_stimuli_cases.
  - intros Hfl Hlen. split.
    + by apply time_to_stimuli_0_3.
    + rewrite (slice_prefix _ 2). apply time_to_stimuli_0_2; [done|lia].
Qed.

(** C6.  The resolver fails with an out-of-range error exactly when the
    start is negative, or the end index exceeds the number of matching
    epochs minus one without being equal to that number; in every other
    case it returns the names with the index pair.  The interval
    (-1.0, 5.0) fails whatever the epochs. *)
Theorem time_to_stimuli_out_of_range val_epochs start stop :
  let si := Qfloor (fl (start / epoch_step)) in
  let ei := Qfloor (fl (stop / epoch_step)) in
  let count := Z.of_nat (length val_epochs) in
  let fails := start < 0 ∨ ((ei > count - 1)%Z ∧ ei ≠ count) in
  (out_of_range (time_to_stimuli fl val_epochs (start, stop)) ↔ fails)
  ∧ (¬ fails →
     ∃ names,
       time_to_stimuli fl val_epochs (start, stop) = Ok (names, (si, ei)))
  ∧ out_of_range (time_to_stimuli fl val_epochs (-1, 5)).
Proof.
  intros si ei count fails.
  assert (Hret : ¬ fails →
    ∃ names,
      time_to_stimuli fl val_epochs (start, stop) = Ok (names, (si, ei))).
  { intros Hnot.
    assert (Hstart : 0 <= start).
    { destruct (Qlt_le_dec start 0); [|done]. destruct Hnot. by left. }
    destruct (time_to_stimuli_cases val_epochs start stop Hstart)
      as (Heq & _ & Hmul & Hrest).
    fold si ei count in Heq, Hmul, Hrest.
    destruct (decide (ei = count)) as [E|E]; [by eexists; apply Heq|].
    assert (Hle : (ei ≤ count - 1)%Z).
    { destruct (Z_le_gt_dec ei (count - 1)); [done|]. destruct Hnot.
      by right. }
    destruct (decide (ei = 0%Z)) as [E0|E0];
      [by eexists; apply Hrest; [|left]|].
    destruct (Qeq_bool (Time.pymod stop epoch_step) 0) eqn:Em.
    - apply pymod_zero_iff in Em. eexists. by apply Hmul.
    - eexists. apply Hrest; [done|]. right. intros Hm.
      apply pymod_zero_iff in Hm. congruence. }
  split; [split|split; [done|]].
  - intros Hout. destruct (Qlt_le_dec start 0) as [|Hstart]; [by left|].
    right. destruct (Z_le_gt_dec ei (count - 1)) as [Hle|Hgt].
    + destruct Hret as [names Hn].
      * intros [Hneg | [Hgt _]]; [by apply (Qlt_not_le start 0)|lia].
      * rewrite Hn in Hout. by destruct Hout.
    + split; [done|]. intros E.
      destruct (time_to_stimuli_cases val_epochs start stop Hstart)
        as (Heq & _).
      rewrite (Heq E) in Hout. by destruct Hout.
  - intros [Hneg | [Hgt Hne]].
    + left. by apply time_to_stimuli_negative_start.
    + destruct (Qlt_le_dec start 0) as [Hneg|Hstart].
      * left. by apply time_to_stimuli_negative_start.
      * right.
        destruct (time_to_stimuli_cases val_epochs start stop Hstart)
          as (_ & Herr & _).
        by apply Herr.
  - left. by apply time_to_stimuli_negative_start.
Qed.

(** C10 (amended).  For an interval whose start is not negative and whose
    end index is at least zero, at most the number of matching epochs
    minus one and strictly less than the start index, the resolver raises
    no error and returns no epoch name, together with the index pair. *)
Theorem time_to_stimuli_end_before_start val_epochs start stop :
  0 <= start →
  let si := Qfloor (fl (start / epoch_step)) in
  let ei := Qfloor (fl (stop / epoch_step)) in
  let count := Z.of_nat (length val_epochs) in
  (0 ≤ ei)%Z → (ei ≤ count - 1)%Z → (ei < si)%Z →
  time_to_stimuli fl val_epochs (start, stop) = Ok ([], (si, ei)).
Proof.
  intros Hstart si ei count Hnonneg Hle Hlt.
  destruct (time_to_stimuli_cases val_epochs start stop Hstart)
    as (_ & _ & Hmul & Hrest).
  fold si ei count in Hmul, Hrest.
  destruct (decide (ei = 0%Z)) as [E0|E0].
  - rewrite Hrest; [|done|by left]. by rewrite slice_empty by lia.
  - destruct (Qeq_bool (Time.pymod stop epoch_step) 0) eqn:Em.
    + apply pymod_zero_iff in Em. rewrite Hmul by done.
      by rewrite slice_empty by lia.
    + rewrite Hrest; [by rewrite slice_empty by lia|done|].
      right. intros Hm. apply pymod_zero_iff in Hm. congruence.
Qed.

End Resolver.

Lemma time_to_stimuli_policy_witness :
  time_to_stimuli Time.exact
    ["STIM_00a"; "STIM_00b"; "STIM_00c"]%string (3 # 2, 3)%Q
  = Ok (["STIM_00b"]%string, (1, 2)%Z)
  ∧ time_to_stimuli Time.exact
      ["STIM_00a"; "STIM_00b"; "STIM_00c"]%string (0, 3)%Q
    = Ok (["STIM_00a"; "STIM_00b"]%string, (0, 2)%Z).
Proof.
  destruct (time_to_stimuli_policy Time.exact
              ["STIM_00a"; "STIM_00b"; "STIM_00c"]%string) as [Hgen Hex].
  split.
  - assert (Hstart : (0 <= 3 # 2)%Q) by done.
    destruct (Hgen (3 # 2)%Q 3%Q Hstart) as (_ & _ & Hmul & _).
    apply Hmul; [done|done|]. by exists 2%Z.
  - assert (Hlen : 2 ≤ length ["STIM_00a"; "STIM_00b"; "STIM_00c"]%string)
      by (simpl; lia).
    exact (proj1 (Hex exact_rounding Hlen)).
Defined.

Lemma time_to_stimuli_out_of_range_witness :
  out_of_range
    (time_to_stimuli Time.exact ["STIM_00a"; "STIM_00b"]%string (3, 9)%Q)
  ∧ ∃ names,
      time_to_stimuli Time.exact ["STIM_00a"; "STIM_00b"]%string (0, 1)%Q
      = Ok (names, (0, 0)%Z).
Proof.
  split.
  - apply (time_to_stimuli_out_of_range Time.exact
             ["STIM_00a"; "STIM_00b"]%string 3%Q 9%Q).
    right. by split.
  - apply (time_to_stimuli_out_of_range Time.exact
             ["STIM_00a"; "STIM_00b"]%string 0%Q 1%Q).
    intros [Hneg | [Hgt _]]; [by apply (Qlt_not_le 0 0)|done].
Defined.

Lemma time_to_stimuli_end_before_start_witness :
  time_to_stimuli Time.exact
    ["STIM_00a"; "STIM_00b"; "STIM_00c"]%string (3, 1 # 2)%Q
  = Ok ([], (2, 0)%Z).
Proof.
  by apply (time_to_stimuli_end_before_start Time.exact
              ["STIM_00a"; "STIM_00b"; "STIM_00c"]%string 3%Q (1 # 2)%Q).
Defined.

(** C10 as stated fails on a negative end time: with five matching epochs
    the interval (0.0, -3.0) has start index 0 and end index -2, which is
    below the start index and below the count minus one, and Python's
    slice [val_epochs[0:-2]] returns the first three names.  Both
    quotients are whole numbers, which no rounding changes
    ([time_to_stimuli_0_minus_3]). *)
Lemma time_to_stimuli_negative_end :
  let val_epochs :=
    ["STIM_00a"; "STIM_00b"; "STIM_00c"; "STIM_00d"; "STIM_00e"]%string in
  let si := Qfloor (Time.exact (0 / epoch_step)) in
  let ei := Qfloor (Time.exact (-3 / epoch_step)) in
  (0 <= 0)%Q
  ∧ (ei ≤ Z.of_nat (length val_epochs) - 1)%Z
  ∧ (ei < si)%Z
  ∧ time_to_stimuli Time.exact val_epochs (0, -3)%Q
    = Ok (["STIM_00a"; "STIM_00b"; "STIM_00c"]%string, (0, -2)%Z)
  ∧ time_to_stimuli Time.exact val_epochs (0, -3)%Q ≠ Ok ([], (si, ei)).
Proof.
  repeat split; done.
Qed.

(** ** Design matrix builder *)

Section Tabulate.
Context {A : Type}.
Implicit Types (f : nat → A) (fs : list (nat → A)).

Lemma tabulate_wf n fs : wf (tabulate n fs).
Proof.
  split; simpl.
  - by rewrite length_fmap, length_seq.
  - apply Forall_fmap, Forall_forall. intros t _. simpl.
    by rewrite length_fmap.
Qed.

Lemma tabulate_entry n fs t c :
  t < n → entry (tabulate n fs) t c = (λ f, f t) <$> fs !! c.
Proof.
  intros Ht. unfold entry, tabulate. simpl.
  rewrite list_lookup_fmap, lookup_seq_lt by done. simpl.
  by rewrite list_lookup_fmap.
Qed.

Lemma as_column_tabulate n f : as_column (f <$> seq 0 n) = tabulate n [f].
Proof.
  unfold as_column, tabulate. rewrite length_fmap, length_seq. f_equal.
  by rewrite <- list_fmap_compose.
Qed.

(** Stacking one more column to the right of a tabulated array. *)
Lemma hstack_tabulate n fs f :
  hstack (tabulate n fs) (as_column (f <$> seq 0 n))
  = Ok (tabulate n (fs ++ [f])).
Proof.
  rewrite as_column_tabulate. unfold hstack, tabulate. simpl.
  rewrite decide_True by done. f_equal.
  rewrite length_app. simpl. f_equal.
  rewrite zip_with_fmap_l, zip_with_fmap_r, zip_with_diag.
  apply list_fmap_ext. intros _ t _. by rewrite fmap_app.
Qed.

End Tabulate.

Section Builder.
Context {A : Type} (zero : A) (stim : ndarray A).
Hypothesis stim_wf : wf stim.

Lemma stim_row_length i r : rows stim !! i = Some r → length r = ncols stim.
Proof.
  intros Hr. destruct stim_wf as [_ Hall].
  rewrite Forall_lookup in Hall. by apply (Hall i).
Qed.

Lemma stim_row_exists i : i < nrows stim → is_Some (rows stim !! i).
Proof.
  intros Hi. apply lookup_lt_is_Some. destruct stim_wf as [-> _]. done.
Qed.

Lemma stim_entry_exists i t :
  i < nrows stim → t < ncols stim → is_Some (entry stim i t).
Proof.
  intros Hi Ht. destruct (stim_row_exists i Hi) as [r Hr].
  unfold entry. rewrite Hr. simpl. apply lookup_lt_is_Some.
  by rewrite (stim_row_length i r).
Qed.

Lemma pad_stimuli_padded m d :
  m ≤ nrows stim → pad_stimuli zero stim m d = Ok (padded zero stim m d).
Proof.
  intros Hm. unfold pad_stimuli, padded. destruct (decide (0 < d)) as [Hd|Hd].
  - unfold hstack. simpl. rewrite decide_True by lia. do 2 f_equal.
    rewrite zip_with_replicate_l; [done|]. rewrite length_take. lia.
  - replace d with 0 by lia. unfold first_rows. simpl. f_equal. f_equal.
    + lia.
    + by rewrite list_fmap_id.
Qed.

Lemma padded_row m d i r :
  i < m → rows stim !! i = Some r →
  row (padded zero stim m d) i = Ok (replicate d zero ++ r).
Proof.
  intros Hi Hr. unfold row, item, padded. simpl.
  by rewrite list_lookup_fmap, lookup_take_lt, Hr by done.
Qed.

(** Every column the loop slices off the padded array is the channel
    delayed by its lag. *)
Lemma lag_slice_padded m d i j :
  i < m → m ≤ nrows stim → j ≤ d →
  lag_slice (padded zero stim m d) d i j
  = Ok (lag_value zero stim i j <$> seq 0 (ncols stim)).
Proof.
  intros Hi Hm Hj.
  destruct (stim_row_exists i) as [r Hr]; [lia|].
  pose proof (stim_row_length i r Hr) as Hlen.
  unfold lag_slice. rewrite (padded_row m d i r) by done. simpl. f_equal.
  replace (Z.of_nat d - Z.of_nat j)%Z with (Z.of_nat (d - j)) by lia.
  replace (Z.of_nat (d + ncols stim) - Z.of_nat j)%Z
    with (Z.of_nat (d + ncols stim - j)) by lia.
  rewrite slice_take_drop
    by (rewrite length_app, length_replicate; lia).
  replace (d + ncols stim - j - (d - j)) with (ncols stim) by lia.
  apply list_eq. intros t. rewrite list_lookup_fmap.
  destruct (decide (t < ncols stim)) as [Ht|Ht].
  - rewrite lookup_take_lt, lookup_drop, lookup_seq_lt by done. simpl.
    unfold lag_value, lagged. destruct (decide (t < j)) as [Htj|Htj].
    + rewrite lookup_app_l by (rewrite length_replicate; lia).
      by rewrite lookup_replicate_2 by lia.
    + rewrite lookup_app_r by (rewrite length_replicate; lia).
      rewrite length_replicate.
      replace (d - j + t - d) with (t - j) by lia.
      unfold entry. rewrite Hr. simpl.
      destruct (lookup_lt_is_Some_2 r (t - j)) as [x Hx]; [lia|].
      by rewrite Hx.
  - rewrite lookup_take_ge, lookup_seq_ge by lia. done.
Qed.

(** The first column, [stim_data[0][d:length_stim]]. *)
Lemma first_column_padded m d :
  1 ≤ m ≤ nrows stim →
  ∃ channel0,
    row (padded zero stim m d) 0 = Ok channel0
    ∧ slice (Some (Z.of_nat d))
            (Some (Z.of_nat (ncols (padded zero stim m d)))) channel0
      = lag_value zero stim 0 0 <$> seq 0 (ncols stim).
Proof.
  intros Hm. pose proof (lag_slice_padded m d 0 0) as Hfirst.
  unfold lag_slice in Hfirst. rewrite !Z.sub_0_r in Hfirst.
  destruct (row (padded zero stim m d) 0) as [channel0|e]; simpl in *.
  - exists channel0. split; [done|]. injection Hfirst as ->; [done|lia..].
  - discriminate Hfirst; lia.
Qed.

(** The inner loop, over the lags [js] of one channel. *)
Lemma lag_loop m d i js fs :
  i < m → m ≤ nrows stim → Forall (λ j, j ≤ d) js →
  for_each js (λ j stim_matrix,
      if decide (i = 0 ∧ j = 0) then Ok stim_matrix
      else
        new ← lag_slice (padded zero stim m d) d i j;
        hstack stim_matrix (as_column new))
    (tabulate (ncols stim) fs)
  = Ok (tabulate (ncols stim)
          (fs ++ ((λ p, lag_value zero stim p.1 p.2)
                    <$> filter (λ p, p ≠ (0, 0)) ((λ j, (i, j)) <$> js)))).
Proof.
  intros Hi Hm Hjs. revert fs.
  induction Hjs as [|j js Hj _ IH]; intros fs; simpl.
  - by rewrite app_nil_r.
  - destruct (decide (i = 0 ∧ j = 0)) as [[-> ->]|Hne]; simpl.
    + rewrite IH. by rewrite filter_cons_False by (by intros []).
    + rewrite lag_slice_padded by done. simpl.
      rewrite hstack_tabulate. simpl. rewrite IH.
      rewrite filter_cons_True by (intros [= -> ->]; by apply Hne).
      by rewrite fmap_cons, <- app_assoc.
Qed.

(** The outer loop, over the channels [cs]. *)
Lemma channel_loop m d cs fs :
  m ≤ nrows stim → Forall (λ i, i < m) cs →
  for_each cs (λ i stim_matrix,
      for_each (range (d + 1)) (λ j stim_matrix,
          if decide (i = 0 ∧ j = 0) then Ok stim_matrix
          else
            new ← lag_slice (padded zero stim m d) d i j;
            hstack stim_matrix (as_column new))
        stim_matrix)
    (tabulate (ncols stim) fs)
  = Ok (tabulate (ncols stim)
          (fs ++ ((λ p, lag_value zero stim p.1 p.2)
                    <$> filter (λ p, p ≠ (0, 0))
                          (i ← cs; (λ j, (i, j)) <$> seq 0 (d + 1))))).
Proof.
  intros Hm Hcs. revert fs.
  induction Hcs as [|i cs Hi _ IH]; intros fs; simpl.
  - by rewrite app_nil_r.
  - rewrite (lag_loop m d i) by
      (try done; apply Forall_forall; intros j Hj%elem_of_seq; lia).
    simpl. rewrite IH.
    by rewrite filter_app, fmap_app, app_assoc.
Qed.

(** The builder returns the design matrix in closed form. *)
Lemma prepare_stimuli_design_matrix m d :
  1 ≤ m ≤ nrows stim →
  prepare_stimuli zero stim m d = Ok (design_matrix zero stim m d).
Proof.
  intros [Hm1 Hm]. unfold prepare_stimuli.
  rewrite pad_stimuli_padded by done. simpl.
  destruct (first_column_padded m d) as (channel0 & -> & Hfirst); [done|].
  simpl in Hfirst |- *. rewrite Hfirst, as_column_tabulate.
  rewrite (channel_loop m d)
    by (try done; apply Forall_forall; intros i Hi%elem_of_seq; lia).
  done.
Qed.

End Builder.

(** ** Column order *)

Section ColumnOrder.
Implicit Types (m d n i j c : nat).

Lemma filter_all {X : Type} (P : X → Prop) `{∀ x, Decision (P x)}
    (l : list X) :
  Forall P l → filter P l = l.
Proof.
  induction 1 as [|x l Hx _ IH]; [done|].
  by rewrite filter_cons_True, IH.
Qed.

Lemma elem_of_grid m n i j : (i, j) ∈ grid m n ↔ i < m ∧ j < n.
Proof.
  unfold grid. rewrite list_elem_of_bind. split.
  - intros (i' & Hj & Hi). apply list_elem_of_fmap in Hj as (j' & [= -> ->] & Hj).
    apply elem_of_seq in Hi, Hj. lia.
  - intros [Hi Hj]. exists i. split.
    + apply list_elem_of_fmap. exists j. split; [done|]. apply elem_of_seq. lia.
    + apply elem_of_seq. lia.
Qed.

Lemma NoDup_grid m n : NoDup (grid m n).
Proof.
  unfold grid. apply NoDup_bind; [| |apply NoDup_seq].
  - intros i1 i2 [i j] _ _ H1 H2.
    apply list_elem_of_fmap in H1 as (? & [= -> ->] & _).
    by apply list_elem_of_fmap in H2 as (? & [= -> ->] & _).
  - intros i _. apply NoDup_fmap_2; [|apply NoDup_seq]. by intros ?? [= ->].
Qed.

Lemma grid_shift a m n k j :
  k < m → j < n →
  (i ← seq a m; (λ j, (i, j)) <$> seq 0 n) !! (k * n + j) = Some (a + k, j).
Proof.
  revert a k. induction m as [|m IH]; intros a k Hk Hj; [lia|].
  simpl. destruct k as [|k]; simpl.
  - rewrite lookup_app_l by (rewrite length_fmap, length_seq; lia).
    rewrite list_lookup_fmap, lookup_seq_lt by done. simpl.
    by rewrite Nat.add_0_r.
  - rewrite lookup_app_r by (rewrite length_fmap, length_seq; lia).
    rewrite length_fmap, length_seq.
    replace (n + k * n + j - n) with (k * n + j) by lia.
    rewrite IH by lia. do 2 f_equal. lia.
Qed.

Lemma length_grid a m n :
  length (i ← seq a m; (λ j, (i, j)) <$> seq 0 n) = m * n.
Proof.
  revert a. induction m as [|m IH]; intros a; [done|].
  simpl. by rewrite length_app, length_fmap, length_seq, IH.
Qed.

(** With at least one channel, taking (0, 0) out of the loop and putting
    it in front leaves the channel-major order as it is. *)
Lemma column_order_grid m d : 1 ≤ m → column_order m d = grid m (d + 1).
Proof.
  intros Hm. pose proof (NoDup_grid m (d + 1)) as Hnd. revert Hnd.
  unfold column_order, grid. destruct m as [|m]; [lia|].
  rewrite Nat.add_1_r. simpl. intros Hnd.
  rewrite filter_cons_False by (by intros []). f_equal.
  apply filter_all, Forall_forall. intros [i j] Hin [= -> ->].
  by apply NoDup_cons_1_1 in Hnd.
Qed.

Lemma column_order_length m d : 1 ≤ m → length (column_order m d) = m * (d + 1).
Proof.
  intros Hm. rewrite column_order_grid by done. apply length_grid.
Qed.

Lemma column_order_lookup m d i j :
  i < m → j ≤ d → column_order m d !! (i * (d + 1) + j) = Some (i, j).
Proof.
  intros Hi Hj. rewrite column_order_grid by lia.
  unfold grid. by rewrite (grid_shift 0) by lia.
Qed.

Lemma column_order_elem_of m d i j :
  1 ≤ m → (i, j) ∈ column_order m d ↔ i < m ∧ j ≤ d.
Proof.
  intros Hm. rewrite column_order_grid, elem_of_grid by done. lia.
Qed.

Lemma column_order_NoDup m d : 1 ≤ m → NoDup (column_order m d).
Proof. intros Hm. rewrite column_order_grid by done. apply NoDup_grid. Qed.

(** The position of a pair in the column order. *)
Lemma column_order_position m d c i j :
  1 ≤ m → column_order m d !! c = Some (i, j) →
  i < m ∧ j ≤ d ∧ c = i * (d + 1) + j.
Proof.
  intros Hm Hc.
  assert (Hin : i < m ∧ j ≤ d).
  { apply (column_order_elem_of m d i j Hm).
    apply list_elem_of_lookup. by exists c. }
  destruct Hin as [Hi Hj]. repeat split; [done..|].
  eapply NoDup_lookup; [by apply column_order_NoDup|done|].
  by apply column_order_lookup.
Qed.

End ColumnOrder.

(** ** The design matrix *)

Section DesignMatrixProps.
Context {A : Type} (zero : A).
Implicit Types (stim : ndarray A) (m d i j c t : nat).

Lemma lagged_exists stim i j t :
  wf stim → i < nrows stim → t < ncols stim →
  lagged zero stim i j t = Some (lag_value zero stim i j t).
Proof.
  intros Hwf Hi Ht. unfold lag_value, lagged.
  destruct (decide (t < j)); [done|].
  destruct (stim_entry_exists stim Hwf i (t - j)) as [x Hx]; [lia..|].
  by rewrite Hx.
Qed.

Lemma design_matrix_entry stim m d c i j t :
  wf stim → 1 ≤ m ≤ nrows stim →
  column_order m d !! c = Some (i, j) → t < ncols stim →
  entry (design_matrix zero stim m d) t c = lagged zero stim i j t.
Proof.
  intros Hwf Hm Hc Ht.
  destruct (column_order_position m d c i j) as (Hi & _); [lia|done|].
  unfold design_matrix. rewrite tabulate_entry by done.
  rewrite list_lookup_fmap, Hc. simpl.
  by rewrite lagged_exists by (try done; lia).
Qed.

Lemma design_matrix_column stim m d c i j :
  column_order m d !! c = Some (i, j) →
  column (design_matrix zero stim m d) c
  = Some <$> (lag_value zero stim i j <$> seq 0 (ncols stim)).
Proof.
  intros Hc. unfold column, design_matrix, tabulate. cbn [rows ncols].
  rewrite <- !list_fmap_compose. apply list_fmap_ext. intros _ t _.
  unfold compose.
  by rewrite !list_lookup_fmap, Hc.
Qed.

Lemma omap_lookup {X Y : Type} (f : X → option Y) (l : list X) i :
  Forall (λ x, is_Some (f x)) l → omap f l !! i = l !! i ≫= f.
Proof.
  intros Hall. revert i. induction Hall as [|x l [y Hy] _ IH]; intros i.
  - done.
  - simpl. rewrite Hy. destruct i as [|i]; simpl; [done|apply IH].
Qed.

Lemma grid_one m : grid m 1 = (λ i, (i, 0)) <$> seq 0 m.
Proof.
  unfold grid.
  enough (H : ∀ a, (i ← seq a m; (λ j, (i, j)) <$> seq 0 1)
                   = (λ i, (i, 0)) <$> seq a m) by apply H.
  induction m as [|m IH]; intros a; [done|].
  simpl. by rewrite IH.
Qed.

(** Without lags the design matrix is the transposed stimulus. *)
Lemma design_matrix_transpose stim m :
  wf stim → 1 ≤ m ≤ nrows stim →
  design_matrix zero stim m 0 = transpose (first_rows m stim).
Proof.
  intros Hwf Hm. unfold design_matrix, tabulate, transpose, first_rows.
  cbn [nrows ncols rows].
  rewrite length_fmap, column_order_length by lia. f_equal; [lia|].
  apply list_fmap_ext. intros t ? [-> Ht]%lookup_seq.
  change (0 + t) with t.
  assert (Hall : Forall (λ r, is_Some (r !! t)) (take m (rows stim))).
  { apply Forall_forall. intros r Hr. apply list_elem_of_lookup in Hr as [i Hr].
    apply lookup_take_Some in Hr as [Hr _]. apply lookup_lt_is_Some.
    by rewrite (stim_row_length stim Hwf i r). }
  rewrite column_order_grid, grid_one by lia.
  apply list_eq. intros i. rewrite (omap_lookup _ _ _ Hall).
  rewrite <- !list_fmap_compose, list_lookup_fmap.
  destruct (decide (i < m)) as [Hi|Hi].
  - rewrite lookup_seq_lt, lookup_take_lt by done. simpl.
    rewrite <- (lagged_exists stim i 0 t) by (try done; lia).
    unfold lagged. rewrite decide_False by lia. by rewrite Nat.sub_0_r.
  - by rewrite lookup_seq_ge, lookup_take_ge by lia.
Qed.

(** With fewer channels than asked for and no lag, the first rows of the
    stimulus are the stimulus itself. *)
Lemma pad_stimuli_short stim m :
  wf stim → nrows stim < m →
  pad_stimuli zero stim m 0 = Ok (padded zero stim (nrows stim) 0).
Proof.
  intros [Hlen Hall] Hm. unfold pad_stimuli, padded, first_rows. simpl.
  f_equal. f_equal; [lia|].
  by rewrite list_fmap_id, !take_ge by lia.
Qed.

(** C1.  For a stimulus slice with at least [m] channels, [m >= 1], and
    any lag depth [d], the builder returns a matrix with one column per
    pair (channel [i], lag [j]), [i < m] and [j <= d]: the pairs appear in
    [column_order], that is (0, 0) first and then the channel outer and
    the lag inner without (0, 0), which puts (i, j) at column
    [i * (d + 1) + j].  In row [t] the column of (i, j) holds the value
    of channel [i] at time [t - j], and zero when [t < j]; column 0 is
    the unlagged trace of channel 0. *)
Theorem prepare_stimuli_columns stim m d :
  wf stim → 1 ≤ m ≤ nrows stim →
  ∃ M,
    prepare_stimuli zero stim m d = Ok M
    ∧ ncols M = length (column_order m d)
    ∧ NoDup (column_order m d)
    ∧ (∀ i j, (i, j) ∈ column_order m d ↔ i < m ∧ j ≤ d)
    ∧ (∀ i j, i < m → j ≤ d →
         column_order m d !! (i * (d + 1) + j) = Some (i, j))
    ∧ (∀ c i j t,
         column_order m d !! c = Some (i, j) → t < ncols stim →
         is_Some (entry M t c)
         ∧ (t < j → entry M t c = Some zero)
         ∧ (j ≤ t → entry M t c = entry stim i (t - j)))
    ∧ (∀ t, t < ncols stim → entry M t 0 = entry stim 0 t).
Proof.
  intros Hwf Hm. exists (design_matrix zero stim m d).
  split; [by apply prepare_stimuli_design_matrix|].
  split; [unfold design_matrix, tabulate; simpl; by rewrite length_fmap|].
  split; [apply column_order_NoDup; lia|].
  split; [intros i j; apply column_order_elem_of; lia|].
  split; [intros i j; apply column_order_lookup|].
  split.
  - intros c i j t Hc Ht.
    destruct (column_order_position m d c i j) as (Hi & _); [lia|done|].
    rewrite (design_matrix_entry stim m d c i j t) by done.
    split; [rewrite lagged_exists by (try done; lia); by eexists|].
    unfold lagged. split; intros Htj.
    + by rewrite decide_True.
    + by rewrite decide_False by lia.
  - intros t Ht.
    assert (Hc : column_order m d !! 0 = Some (0, 0))
      by (apply (column_order_lookup m d 0 0); lia).
    rewrite (design_matrix_entry stim m d 0 0 0 t Hwf Hm Hc Ht).
    unfold lagged. by rewrite decide_False, Nat.sub_0_r by lia.
Qed.

(** C4.  For a stimulus slice with at least [m] channels and [T] samples,
    [m >= 1], and any lag depth [d], the builder returns a matrix of
    exactly [T] rows and [m * (d + 1)] columns; for [d = 0] the matrix is
    the first [m] channels transposed. *)
Theorem prepare_stimuli_shape stim m d :
  wf stim → 1 ≤ m ≤ nrows stim →
  ∃ M,
    prepare_stimuli zero stim m d = Ok M
    ∧ wf M
    ∧ nrows M = ncols stim
    ∧ ncols M = m * (d + 1)
    ∧ (d = 0 → M = transpose (first_rows m stim)).
Proof.
  intros Hwf Hm. exists (design_matrix zero stim m d).
  split; [by apply prepare_stimuli_design_matrix|].
  split; [apply tabulate_wf|].
  split; [done|].
  split.
  - unfold design_matrix, tabulate. simpl.
    rewrite length_fmap. apply column_order_length. lia.
  - intros ->. by apply design_matrix_transpose.
Qed.

(** C5, amended.  For every channel [i < m] and lag [j <= d] other than
    (0, 0), the column the builder appends for (i, j) is the padded
    series of channel [i] sliced from position [d - j] to [L - j], [L]
    the padded length, and in that column the row [t] holds the value of
    channel [i] from [j] samples earlier (zero when [t < j]): a larger
    lag is an older sample. *)
Theorem prepare_stimuli_lag_columns stim m d :
  wf stim → 1 ≤ m ≤ nrows stim →
  ∃ P M,
    pad_stimuli zero stim m d = Ok P
    ∧ prepare_stimuli zero stim m d = Ok M
    ∧ ∀ i j, i < m → j ≤ d → (i, j) ≠ (0, 0) →
        ∃ c series,
          column_order m d !! c = Some (i, j)
          ∧ row P i = Ok series
          ∧ column M c
            = Some <$> slice (Some (Z.of_nat d - Z.of_nat j)%Z)
                             (Some (Z.of_nat (ncols P) - Z.of_nat j)%Z)
                             series
          ∧ ∀ t, t < ncols stim → entry M t c = lagged zero stim i j t.
Proof.
  intros Hwf Hm.
  exists (padded zero stim m d), (design_matrix zero stim m d).
  split; [apply pad_stimuli_padded; lia|].
  split; [by apply prepare_stimuli_design_matrix|].
  intros i j Hi Hj _.
  destruct (stim_row_exists stim Hwf i) as [r Hr]; [lia|].
  exists (i * (d + 1) + j), (replicate d zero ++ r).
  pose proof (column_order_lookup m d i j Hi Hj) as Hc.
  split; [done|].
  split; [by apply padded_row|].
  split.
  - rewrite (design_matrix_column stim m d _ i j Hc). f_equal.
    pose proof (lag_slice_padded zero stim Hwf m d i j Hi) as Hs.
    unfold lag_slice in Hs.
    rewrite (padded_row zero stim m d i r Hi Hr) in Hs. simpl in Hs.
    symmetry. injection Hs; [done|lia..].
  - intros t Ht. by apply design_matrix_entry.
Qed.

(** C7, amended.  For a stimulus slice with fewer than [m] channels the
    builder never returns a matrix, and it makes no check of its own:
    with [d > 0] the call fails in [hstack] on the mismatch of the row
    counts, and with [d = 0] it fails by indexing a channel that does not
    exist. *)
Theorem prepare_stimuli_too_few_channels stim m d :
  wf stim → nrows stim < m →
  prepare_stimuli zero stim m d
  = Raise (if decide (0 < d) then ShapeMismatch else IndexError).
Proof.
  intros Hwf Hm. destruct (decide (0 < d)) as [Hd|Hd].
  - unfold prepare_stimuli, pad_stimuli, hstack. simpl.
    rewrite decide_True by done. by rewrite decide_False by lia.
  - replace d with 0 by lia. unfold prepare_stimuli.
    rewrite pad_stimuli_short by done. simpl.
    destruct (decide (nrows stim = 0)) as [E0|E0].
    + unfold lag_slice, row, item, padded. simpl.
      destruct Hwf as [Hlen _]. rewrite E0 in *.
      by rewrite take_0.
    + destruct (first_column_padded zero stim Hwf (nrows stim) 0)
        as (channel0 & -> & Hfirst); [lia|].
      simpl in Hfirst |- *. rewrite Hfirst, as_column_tabulate.
      unfold range.
      replace m with (nrows stim + (m - nrows stim)) at 1 by lia.
      rewrite seq_app, for_each_app.
      rewrite (channel_loop zero stim Hwf (nrows stim) 0)
        by (try done; apply Forall_forall; intros i Hi%elem_of_seq; lia).
      destruct (m - nrows stim) as [|k] eqn:Ek; [lia|]. simpl.
      rewrite decide_False by lia.
      unfold lag_slice, row, item, padded. simpl.
      destruct Hwf as [Hlen _].
      by rewrite list_lookup_fmap, lookup_take_ge by lia.
Qed.

End DesignMatrixProps.

(** ** Text *)

(** Concatenations that differ in their bracketing only. *)
Ltac reassoc :=
  repeat (rewrite <- app_assoc || rewrite <- app_comm_cons).

Section Text.
Implicit Types (s p rest : str) (c : ascii).

Lemma split_first_line p rest :
  Forall (λ c, c ≠ nl) p → split nl (p ++ nl :: rest) = p :: split nl rest.
Proof.
  induction 1 as [|x p Hx _ IH]; simpl.
  - done.
  - apply Ascii.eqb_neq in Hx. by rewrite Hx, IH.
Qed.

Lemma readlines_first_line p rest :
  Forall (λ c, c ≠ nl) p →
  readlines (p ++ nl :: rest) = (p ++ [nl]) :: readlines rest.
Proof.
  induction 1 as [|x p Hx _ IH]; simpl.
  - done.
  - apply Ascii.eqb_neq in Hx. by rewrite Hx, IH.
Qed.

(** Writing back the lines that were read restores the text. *)
Lemma concat_readlines s : concat (readlines s) = s.
Proof.
  induction s as [|x s IH]; [done|]. simpl.
  destruct (Ascii.eqb x nl); simpl; [by rewrite IH|].
  destruct (readlines s) as [|l ls]; simpl in *; by rewrite <- IH.
Qed.

Lemma is_digit_not_nl c : is_digit c → c ≠ nl.
Proof.
  intros Hc ->. unfold is_digit in Hc.
  change (nat_of_ascii nl) with 10 in Hc. lia.
Qed.

Lemma int_of_char_digit c :
  is_digit c →
  int_of_char c = Ok (Z.of_nat (nat_of_ascii c) - 48)%Z.
Proof.
  intros Hc. unfold int_of_char. rewrite decide_True by done.
  f_equal. unfold is_digit in Hc. lia.
Qed.

Lemma digits_value_snoc s c :
  digits_value (s ++ [c])
  = (10 * digits_value s + (Z.of_nat (nat_of_ascii c) - 48))%Z.
Proof. unfold digits_value. by rewrite foldl_app. Qed.

Lemma digits_value_nonneg s : Forall is_digit s → (0 ≤ digits_value s)%Z.
Proof.
  induction s as [|c s IH] using rev_ind; [done|].
  intros [Hs Hc%Forall_inv]%Forall_app. rewrite digits_value_snoc.
  unfold is_digit in Hc. specialize (IH Hs). lia.
Qed.

End Text.

(** ** Trial result ledger *)

Section LedgerProps.
Context {num : Type} (str_num : num → str).
Implicit Types (r : RecordingData (num := num)) (f : file).
Implicit Types (pre rest : str) (c : ascii).

(** The rewrite of the first line: the last character before the newline
    is read as the count, and is replaced by the count plus one. *)
Lemma bump_counter_first_line pre c n rest :
  Forall (λ x, x ≠ nl) pre → c ≠ nl → int_of_char c = Ok n →
  bump_counter (pre ++ c :: nl :: rest)
  = Ok (n, pre ++ of_int (n + 1) ++ nl :: rest).
Proof.
  intros Hpre Hc Hn. unfold bump_counter.
  replace (pre ++ c :: nl :: rest) with ((pre ++ [c]) ++ nl :: rest)
    by (by rewrite <- app_assoc).
  assert (Hline : Forall (λ x, x ≠ nl) (pre ++ [c]))
    by (apply Forall_app; split; [done|by constructor]).
  rewrite split_first_line, readlines_first_line by done. simpl.
  unfold item_last. rewrite last_snoc. simpl. rewrite Hn. simpl.
  rewrite <- (app_assoc pre [c] [nl]). simpl.
  rewrite slice_drop_last_two, concat_readlines.
  by rewrite <- !app_assoc.
Qed.

(** A call on a ledger that has a first line. *)
Lemma save_results_step r pre c n rest :
  Forall (λ x, x ≠ nl) pre → c ≠ nl → int_of_char c = Ok n →
  save_results str_num r (Some (pre ++ c :: nl :: rest))
  = Ok (Some (pre ++ of_int (n + 1) ++ nl :: rest
                ++ (if decide (n + 1 = 1)%Z
                    then txt "N: " ++ of_int (n + 1) ++ [nl] else [])
                ++ result_text str_num r (n + 1))).
Proof.
  intros Hpre Hc Hn. unfold save_results, open_file.
  rewrite decide_True by (rewrite length_app; simpl; lia).
  rewrite (bump_counter_first_line pre c n rest) by done. simpl.
  destruct (decide (n + 1 = 1)%Z) as [E|E]; do 2 f_equal; by reassoc.
Qed.

(** The first call, on a missing or an empty file. *)
Lemma save_results_fresh r (missing : bool) :
  save_results str_num r (if missing then None else Some [])
  = Ok (Some (txt "N: 1" ++ [nl] ++ result_text str_num r 1)).
Proof. by destruct missing. Qed.

Lemma save_all_snoc trials r f :
  save_all str_num (trials ++ [r]) f
  = Py.bind (save_all str_num trials f) (save_results str_num r).
Proof.
  unfold save_all. rewrite for_each_app. simpl.
  destruct (for_each trials (save_results str_num) f) as [f'|]; simpl; [|done].
  by destruct (save_results str_num r f').
Qed.

Lemma trial_blocks_app n trials1 trials2 :
  trial_blocks str_num n (trials1 ++ trials2)
  = trial_blocks str_num n trials1
    ++ trial_blocks str_num (n + Z.of_nat (length trials1)) trials2.
Proof.
  revert n.
  induction trials1 as [|r rs IH]; intros n; cbn [trial_blocks length app].
  - by rewrite Z.add_0_r.
  - rewrite IH, <- app_assoc. do 3 f_equal. lia.
Qed.

Lemma result_text_header r n :
  ∃ tail,
    result_text str_num r n
    = txt "Trial: n=" ++ of_int n ++ txt ", m=" ++ tail.
Proof. unfold result_text. eexists. reassoc. reflexivity. Qed.

(** The counts 1 to 9 are written with one digit, which [int] reads back. *)
Lemma of_int_one_digit n :
  (1 ≤ n ≤ 9)%Z →
  ∃ c, of_int n = [c] ∧ c ≠ nl ∧ int_of_char c = Ok n.
Proof.
  intros Hn.
  assert (Hcases : n ∈ [1; 2; 3; 4; 5; 6; 7; 8; 9]%Z).
  { rewrite !elem_of_cons. lia. }
  rewrite !elem_of_cons in Hcases.
  destruct Hcases
    as [->|[->|[->|[->|[->|[->|[->|[->|[->|[]%elem_of_nil]]]]]]]]];
    eexists; (split; [reflexivity|split; [discriminate|reflexivity]]).
Qed.

(** Up to ten calls leave the ledger the specification describes. *)
Lemma save_all_first_ten trials (missing : bool) :
  1 ≤ length trials ≤ 10 →
  save_all str_num trials (if missing then None else Some [])
  = Ok (Some (ledger_text str_num trials)).
Proof.
  induction trials as [|r trials IH] using rev_ind; [simpl; lia|].
  rewrite length_app. simpl. intros Hlen. rewrite save_all_snoc.
  destruct (decide (length trials = 0)) as [E|E].
  - apply nil_length_inv in E as ->. unfold save_all.
    cbn [for_each Py.bind app].
    rewrite save_results_fresh. unfold ledger_text.
    cbn [trial_blocks length]. by rewrite app_nil_r.
  - rewrite IH by lia. cbn [Py.bind]. unfold ledger_text.
    destruct (of_int_one_digit (Z.of_nat (length trials)))
      as (c & Hof & Hc & Hint); [lia|].
    rewrite Hof. cbn [app].
    rewrite (save_results_step r (txt "N: ") c _ _
               (ltac:(by repeat constructor)) Hc Hint).
    rewrite decide_False by lia. rewrite length_app.
    rewrite trial_blocks_app. cbn [trial_blocks length]. rewrite app_nil_r.
    replace (Z.of_nat (length trials + 1))
      with (Z.of_nat (length trials) + 1)%Z by lia.
    by rewrite (Z.add_comm 1).
Qed.

(** The eleventh call reads the count off the last digit of ["N: 10"]:
    it takes the count to be 0, writes ["N: 11"], and appends a second
    counter line and a block numbered 1. *)
Lemma save_all_eleventh trials r (missing : bool) :
  length trials = 10 →
  save_all str_num (trials ++ [r]) (if missing then None else Some [])
  = Ok (Some (txt "N: 11" ++ [nl] ++ trial_blocks str_num 1 trials
                ++ txt "N: 1" ++ [nl] ++ result_text str_num r 1)).
Proof.
  intros Hlen. rewrite save_all_snoc, save_all_first_ten by lia.
  cbn [Py.bind]. unfold ledger_text. rewrite Hlen.
  change (txt "N: " ++ of_int (Z.of_nat 10) ++ [nl] ++ ?x)
    with (txt "N: 1" ++ "0"%char :: nl :: x).
  rewrite (save_results_step r (txt "N: 1") "0"%char 0%Z _
             (ltac:(by repeat constructor)));
    [|discriminate|reflexivity].
  do 2 f_equal.
Qed.

(** The numeral that replaces a last digit [n] is [n + 1] written out,
    and it makes the counter larger whatever digits come before it. *)
Lemma of_int_bump n :
  (0 ≤ n ≤ 9)%Z →
  ∃ q c',
    of_int (n + 1) = q ++ [c'] ∧ Forall is_digit q ∧ is_digit c'
    ∧ ∀ p, Forall is_digit p →
        (10 * digits_value p + n < digits_value (p ++ q ++ [c']))%Z.
Proof.
  intros Hn.
  assert (Hcases : n ∈ [0; 1; 2; 3; 4; 5; 6; 7; 8; 9]%Z).
  { rewrite !elem_of_cons. lia. }
  rewrite !elem_of_cons in Hcases.
  destruct Hcases
    as [->|[->|[->|[->|[->|[->|[->|[->|[->|[->|[]%elem_of_nil]]]]]]]]]].
  10: {
    exists ["1"%char], "0"%char.
    split; [reflexivity|].
    split; [apply Forall_singleton; vm_compute; lia|].
    split; [vm_compute; lia|].
    intros p Hp%digits_value_nonneg.
    rewrite app_assoc, !digits_value_snoc.
    change (Z.of_nat (nat_of_ascii "1")) with 49%Z.
    change (Z.of_nat (nat_of_ascii "0")) with 48%Z. lia. }
  all: eexists [], _; (split; [reflexivity|]); (split; [constructor|]);
    (split; [vm_compute; lia|]);
    intros p Hp; cbn [app]; rewrite digits_value_snoc;
    match goal with
    | |- context [Z.of_nat (nat_of_ascii ?c)] =>
        let v := eval vm_compute in (Z.of_nat (nat_of_ascii c)) in
        change (Z.of_nat (nat_of_ascii c)) with v
    end; lia.
Qed.

Lemma counter_first_line p c rest :
  Forall is_digit p → is_digit c →
  counter (Some (txt "N: " ++ p ++ c :: nl :: rest))
  = Some (digits_value (p ++ [c])).
Proof.
  intros Hp Hc. unfold counter, text_of.
  assert (Hds : Forall is_digit (p ++ [c]))
    by (apply Forall_app; split; [done|by constructor]).
  replace (txt "N: " ++ p ++ c :: nl :: rest)
    with ((txt "N: " ++ p ++ [c]) ++ nl :: rest) by (by reassoc).
  rewrite split_first_line.
  - cbn. rewrite decide_True by done. unfold int_of_str.
    rewrite decide_True; [done|]. split; [|done]. by destruct p.
  - apply Forall_app. split; [by repeat constructor|].
    eapply Forall_impl; [done|]. apply is_digit_not_nl.
Qed.

Lemma first_line_no_newline p :
  Forall is_digit p → Forall (λ x, x ≠ nl) (txt "N: " ++ p).
Proof.
  intros Hp. apply Forall_app. split; [by repeat constructor|].
  eapply Forall_impl; [done|]. apply is_digit_not_nl.
Qed.


(** A text without carriage return is read as it is stored. *)
Lemma universal_newlines_no_cr (s : str) :
  no_cr s → universal_newlines s = s.
Proof.
  induction 1 as [|x s Hx _ IH]; [done|]. cbn [universal_newlines].
  apply Ascii.eqb_neq in Hx. by rewrite Hx, IH.
Qed.

(** The text layer changes nothing before the first carriage return. *)
Lemma universal_newlines_app pre rest :
  no_cr pre → universal_newlines (pre ++ rest) = pre ++ universal_newlines rest.
Proof.
  induction 1 as [|x s Hx _ IH]; [done|]. cbn [app universal_newlines].
  apply Ascii.eqb_neq in Hx. by rewrite Hx, IH.
Qed.

Lemma is_digit_not_cr c : is_digit c → c ≠ cr.
Proof.
  intros Hc ->. unfold is_digit in Hc.
  change (nat_of_ascii cr) with 13 in Hc. lia.
Qed.

Lemma no_cr_uint (u : Decimal.uint) :
  no_cr (txt (NilEmpty.string_of_uint u)).
Proof. induction u; constructor; (discriminate || done). Qed.

Lemma no_cr_of_int (z : Z) : no_cr (of_int z).
Proof.
  unfold of_int, NilZero.string_of_int.
  destruct (Z.to_int z) as [u|u]; [|constructor; [discriminate|]];
    unfold NilZero.string_of_uint;
    destruct u; (by repeat constructor) || apply no_cr_uint.
Qed.

Lemma no_cr_join sep parts :
  no_cr sep → Forall no_cr parts → no_cr (join sep parts).
Proof.
  intros Hsep. induction 1 as [|p ps Hp Hps IH]; [constructor|].
  destruct ps as [|p' ps]; [done|].
  change (join sep (p :: p' :: ps)) with (p ++ sep ++ join sep (p' :: ps)).
  apply Forall_app. split; [done|]. apply Forall_app. by split.
Qed.

(** The block of a plain record holds no carriage return. *)
Lemma no_cr_result_text r n :
  plain str_num r → no_cr (result_text str_num r n).
Proof.
  intros (Hcoef & Hint & Hr2 & Hmse & Hmae & Hfun).
  assert (Hlist : ∀ xs, Forall (λ x, no_cr (str_num x)) xs →
                        no_cr (join (txt ", ") (str_num <$> xs))).
  { intros xs Hxs. apply no_cr_join; [by repeat constructor|].
    by apply Forall_fmap. }
  unfold result_text, no_cr. rewrite !Forall_app.
  repeat split;
    first [ done | apply no_cr_of_int | by apply Hlist
          | by repeat constructor ].
Qed.

(** After any positive number of calls the stored first line is ["N: "]
    and a numeral, and plain records leave no carriage return after
    it. *)
Lemma save_all_stored_first_line trials (missing : bool) :
  trials ≠ [] →
  ∃ p c rest,
    save_all_stored str_num trials (if missing then None else Some [])
    = Ok (Some (txt "N: " ++ p ++ c :: nl :: rest))
    ∧ Forall is_digit p ∧ is_digit c
    ∧ (Forall (plain str_num) trials → no_cr rest).
Proof.
  induction trials as [|r trials IH] using rev_ind; [done|]. intros _.
  unfold save_all_stored. rewrite for_each_app.
  destruct (decide (trials = [])) as [->|Hne].
  - cbn [for_each Py.bind]. unfold save_results_stored.
    replace (universal_newlines <$> (if missing then None else Some []))
      with (if missing then @None str else Some []) by (by destruct missing).
    rewrite save_results_fresh. cbn [Py.bind].
    exists [], "1"%char, (result_text str_num r 1).
    split; [done|]. split; [constructor|]. split; [vm_compute; lia|].
    intros Hplain%Forall_inv. by apply no_cr_result_text.
  - destruct (IH Hne) as (p & c & rest & Hrun & Hp & Hc & Hrest).
    fold (save_all_stored str_num trials (if missing then None else Some [])).
    rewrite Hrun. cbn [for_each Py.bind]. unfold save_results_stored.
    cbn [fmap option_fmap option_map]. unfold str.
    assert (Hline : no_cr (txt "N: " ++ p ++ [c; nl])).
    { apply Forall_app. split; [by repeat constructor|].
      apply Forall_app. split.
      - eapply Forall_impl; [done|]. apply is_digit_not_cr.
      - constructor; [by apply is_digit_not_cr|by repeat constructor]. }
    replace (txt "N: " ++ p ++ c :: nl :: rest)
      with ((txt "N: " ++ p ++ [c; nl]) ++ rest) by (by reassoc).
    rewrite (universal_newlines_app _ rest Hline).
    replace ((txt "N: " ++ p ++ [c; nl]) ++ universal_newlines rest)
      with ((txt "N: " ++ p) ++ c :: nl :: universal_newlines rest)
      by (by reassoc).
    pose proof (int_of_char_digit c Hc) as Hint.
    rewrite (save_results_step r (txt "N: " ++ p) c
               (Z.of_nat (nat_of_ascii c) - 48) (universal_newlines rest)
               (first_line_no_newline p Hp) (is_digit_not_nl c Hc) Hint).
    cbn [Py.bind].
    destruct (of_int_bump (Z.of_nat (nat_of_ascii c) - 48))
      as (q & c' & Hof & Hq & Hc' & _); [unfold is_digit in Hc; lia|].
    rewrite Hof. eexists (p ++ q), c', _.
    split; [do 2 f_equal; reassoc; reflexivity|].
    split; [by apply Forall_app|]. split; [done|].
    intros [Htrials Hr%Forall_inv]%Forall_app.
    rewrite (universal_newlines_no_cr rest) by auto.
    apply Forall_app. split; [by apply Hrest|]. apply Forall_app. split.
    + destruct (decide _); [|constructor].
      apply Forall_app. split; [by repeat constructor|].
      apply Forall_app. split.
      * eapply Forall_impl; [exact Hq|]. apply is_digit_not_cr.
      * constructor; [by apply is_digit_not_cr|]. by repeat constructor.
    + by apply no_cr_result_text.
Qed.

(** C9, amended.  In every sequence of calls on one ledger that starts
    from a missing or an empty file, each call succeeds and leaves a first
    line ["N: <k>"] whose number is strictly larger than the number the
    line held before the call (1 after the first call).  The call puts
    the new counter line in the place of the old first line and appends
    its text at the end; what is stored between the two goes through the
    text layer, which turns the carriage returns into line feeds.  When
    the records hold no carriage return, every character after the first
    line is kept as it was stored: the counter line is the only line
    changed in place. *)
Theorem save_results_counter_increases (missing : bool) trials r :
  ∃ f f' ds' appended,
    save_all_stored str_num trials (if missing then None else Some [])
    = Ok f
    ∧ save_results_stored str_num r f = Ok f'
    ∧ ds' ≠ [] ∧ Forall is_digit ds'
    ∧ counter f' = Some (digits_value ds')
    ∧ match counter f with
      | Some k =>
          (k < digits_value ds')%Z
          ∧ ∃ ds body,
              ds ≠ [] ∧ Forall is_digit ds ∧ digits_value ds = k
              ∧ text_of f = txt "N: " ++ ds ++ [nl] ++ body
              ∧ text_of f'
                = txt "N: " ++ ds' ++ [nl] ++ universal_newlines body
                    ++ appended
              ∧ (Forall (plain str_num) trials →
                 text_of f' = txt "N: " ++ ds' ++ [nl] ++ body ++ appended)
      | None =>
          trials = [] ∧ digits_value ds' = 1%Z ∧ text_of f = []
          ∧ text_of f' = txt "N: " ++ ds' ++ [nl] ++ appended
      end.
Proof.
  destruct (decide (trials = [])) as [->|Hne].
  - exists (if missing then None else Some []).
    eexists _, ["1"%char], (result_text str_num r 1).
    split; [reflexivity|].
    split.
    { unfold save_results_stored.
      replace (universal_newlines <$> (if missing then None else Some []))
        with (if missing then @None str else Some [])
        by (by destruct missing).
      apply save_results_fresh. }
    split; [done|]. split; [apply Forall_singleton; vm_compute; lia|].
    split;
      [apply (counter_first_line [] "1"%char);
         [constructor|vm_compute; lia]|].
    by destruct missing.
  - destruct (save_all_stored_first_line trials missing Hne)
      as (p & c & rest & Hf & Hp & Hc & Hrest).
    pose proof (int_of_char_digit c Hc) as Hint.
    set (n := (Z.of_nat (nat_of_ascii c) - 48)%Z) in *.
    destruct (of_int_bump n) as (q & c' & Hof & Hq & Hc' & Hlt);
      [unfold n, is_digit in *; lia|].
    assert (Hline : no_cr (txt "N: " ++ p ++ [c; nl])).
    { apply Forall_app. split; [by repeat constructor|].
      apply Forall_app. split.
      - eapply Forall_impl; [done|]. apply is_digit_not_cr.
      - constructor; [by apply is_digit_not_cr|by repeat constructor]. }
    pose proof (save_results_step r (txt "N: " ++ p) c n
                  (universal_newlines rest)
                  (first_line_no_newline p Hp) (is_digit_not_nl c Hc) Hint)
      as Hstep.
    rewrite Hof in Hstep.
    set (appended :=
           (if decide (n + 1 = 1)%Z then txt "N: " ++ (q ++ [c']) ++ [nl]
            else []) ++ result_text str_num r (n + 1)) in Hstep.
    assert (Hf' : save_results_stored str_num r
                    (Some (txt "N: " ++ p ++ c :: nl :: rest))
                  = Ok (Some (txt "N: " ++ ((p ++ q) ++ [c']) ++ [nl]
                                ++ universal_newlines rest ++ appended))).
    { unfold save_results_stored. cbn [fmap option_fmap option_map].
      unfold str.
      replace (txt "N: " ++ p ++ c :: nl :: rest)
        with ((txt "N: " ++ p ++ [c; nl]) ++ rest) by (by reassoc).
      rewrite (universal_newlines_app _ rest Hline).
      replace ((txt "N: " ++ p ++ [c; nl]) ++ universal_newlines rest)
        with ((txt "N: " ++ p) ++ c :: nl :: universal_newlines rest)
        by (by reassoc).
      rewrite Hstep. do 2 f_equal. reassoc. reflexivity. }
    assert (Hpq : Forall is_digit (p ++ q)) by (by apply Forall_app).
    assert (Hds' : Forall is_digit ((p ++ q) ++ [c']))
      by (apply Forall_app; split; [done|by constructor]).
    eexists _, _, ((p ++ q) ++ [c']), appended.
    split; [exact Hf|]. split; [exact Hf'|].
    split; [by destruct (p ++ q)|]. split; [done|].
    split.
    { rewrite <- (counter_first_line (p ++ q) c'
                    (universal_newlines rest ++ appended) Hpq Hc').
      do 2 f_equal. reassoc. reflexivity. }
    rewrite counter_first_line by done.
    split.
    { rewrite digits_value_snoc. fold n. rewrite <- app_assoc.
      by apply Hlt. }
    exists (p ++ [c]), rest.
    split; [by destruct p|].
    split; [apply Forall_app; split; [done|by constructor]|].
    split; [done|].
    split; [cbn [text_of]; reassoc; reflexivity|].
    split; [done|].
    intros Hplain. cbn [text_of].
    by rewrite (universal_newlines_no_cr rest) by auto.
Qed.

Lemma eleventh_block_misnumbered trials r :
  length trials = 10 →
  txt "N: 11" ++ [nl] ++ trial_blocks str_num 1 trials
    ++ txt "N: 1" ++ [nl] ++ result_text str_num r 1
  ≠ ledger_text str_num (trials ++ [r]).
Proof.
  intros Hlen. unfold ledger_text.
  rewrite trial_blocks_app, length_app, Hlen.
  cbn [trial_blocks length].
  change (of_int (Z.of_nat (10 + 1))) with (txt "11").
  rewrite !app_assoc.
  change (txt "N: " ++ txt "11") with (txt "N: 11").
  rewrite <- !(app_assoc (_ ++ trial_blocks _ _ _)).
  intros H%app_inv_head. revert H.
  destruct (result_text_header r (1 + Z.of_nat 10)) as [tail ->].
  discriminate.
Qed.

(** C3 fails at the eleventh call.  Eleven calls with the same record on
    a path that does not exist leave the first line ["N: 11"], but the
    eleventh block is numbered 1 and follows a second counter line
    ["N: 1"]: the file is not the ledger of eleven trials. *)
Theorem save_results_eleven_trials r :
  save_all str_num (replicate 10 r ++ [r]) None
  = Ok (Some (txt "N: 11" ++ [nl]
                ++ trial_blocks str_num 1 (replicate 10 r)
                ++ txt "N: 1" ++ [nl] ++ result_text str_num r 1))
  ∧ save_all str_num (replicate 10 r ++ [r]) None
    ≠ Ok (Some (ledger_text str_num (replicate 10 r ++ [r]))).
Proof.
  pose proof (save_all_eleventh (replicate 10 r) r true
                (length_replicate 10 r)) as Hrun.
  split; [done|]. rewrite Hrun. intros H.
  apply (eleventh_block_misnumbered (replicate 10 r) r);
    [apply length_replicate|congruence].
Qed.

End LedgerProps.

Lemma save_results_counter_increases_witness :
  ∃ f f' ds ds' body appended,
    save_all_stored id [test_result] None = Ok f
    ∧ save_results_stored id test_result f = Ok f'
    ∧ (digits_value ds < digits_value ds')%Z
    ∧ text_of f = txt "N: " ++ ds ++ [nl] ++ body
    ∧ text_of f' = txt "N: " ++ ds' ++ [nl] ++ body ++ appended.
Proof.
  destruct (save_results_counter_increases id true [test_result] test_result)
    as (f & f' & ds' & appended & Hf & Hf' & _ & _ & _ & Hcall).
  assert (Hfirst : save_all_stored id [test_result] None
                   = Ok (Some (txt "N: 1" ++ [nl]
                                 ++ result_text id test_result 1)))
    by (vm_compute; reflexivity).
  assert (Hcount : counter f = Some 1%Z).
  { rewrite Hfirst in Hf. injection Hf as <-. vm_compute. reflexivity. }
  assert (Hplain : Forall (plain id) [test_result]).
  { apply Forall_singleton. unfold plain, no_cr.
    repeat split; repeat constructor; discriminate. }
  rewrite Hcount in Hcall.
  destruct Hcall as (Hlt & ds & body & _ & _ & Hds & Htext & _ & Hkept).
  exists f, f', ds, ds', body, appended.
  split; [exact Hf|]. split; [exact Hf'|].
  split; [by rewrite Hds|]. split; [exact Htext|]. exact (Hkept Hplain).
Defined.

(** C9 as stated fails on a record that holds a carriage return.  The
    first call stores the block of the record with its carriage return;
    the second call reads the file back in text mode, where the carriage
    return is a line feed, and stores what it read: the block of the
    first call is changed in place, although it is no counter line. *)
Lemma save_results_rewrites_carriage_return :
  let r := test_result_cr in
  let block := result_text id r 1 in
  save_all_stored id [r] None = Ok (Some (txt "N: 1" ++ [nl] ++ block))
  ∧ save_all_stored id [r; r] None
    = Ok (Some (txt "N: 2" ++ [nl] ++ universal_newlines block
                  ++ result_text id r 2))
  ∧ universal_newlines block ≠ block
  ∧ ¬ block `prefix_of` universal_newlines block ++ result_text id r 2.
Proof.
  split; [vm_compute; reflexivity|].
  split; [vm_compute; reflexivity|].
  split.
  - intros H. vm_compute in H. discriminate H.
  - intros [k Hk]. vm_compute in Hk. discriminate Hk.
Qed.

(** ** The builder on the examples *)

Lemma two_channels_wf : wf two_channels.
Proof. split; [done|]. by repeat constructor. Qed.

Lemma prepare_stimuli_columns_witness :
  ∃ M,
    prepare_stimuli 0%Z two_channels 2 1 = Ok M
    ∧ entry M 0 3 = Some 0%Z
    ∧ entry M 1 3 = Some 4%Z.
Proof.
  destruct (prepare_stimuli_columns 0%Z two_channels 2 1 two_channels_wf)
    as (M & HM & _ & _ & _ & _ & Hentry & _); [simpl; lia|].
  exists M. split; [done|].
  assert (Hc : column_order 2 1 !! 3 = Some (1, 1)) by done.
  split.
  - assert (Ht : 0 < ncols two_channels) by (simpl; lia).
    destruct (Hentry 3 1 1 0 Hc Ht) as (_ & Hzero & _). apply Hzero. lia.
  - assert (Ht : 1 < ncols two_channels) by (simpl; lia).
    destruct (Hentry 3 1 1 1 Hc Ht) as (_ & _ & Hlag). by rewrite Hlag.
Defined.

Lemma prepare_stimuli_shape_witness :
  ∃ M,
    prepare_stimuli 0%Z two_channels 2 1 = Ok M ∧ nrows M = 3 ∧ ncols M = 4.
Proof.
  destruct (prepare_stimuli_shape 0%Z two_channels 2 1 two_channels_wf)
    as (M & HM & _ & Hrows & Hcols & _); [simpl; lia|].
  by exists M.
Defined.

Lemma prepare_stimuli_lag_columns_witness :
  ∃ M c,
    prepare_stimuli 0%Z two_channels 2 1 = Ok M
    ∧ column_order 2 1 !! c = Some (1, 1)
    ∧ column M c = [Some 0; Some 4; Some 5]%Z.
Proof.
  destruct (prepare_stimuli_lag_columns 0%Z two_channels 2 1 two_channels_wf)
    as (P & M & HP & HM & Hcol); [simpl; lia|].
  destruct (Hcol 1 1) as (c & series & Hc & Hrow & Hslice & _);
    [lia|lia|done|].
  exists M, c. split; [done|]. split; [done|].
  rewrite Hslice. injection HP as <-. by injection Hrow as <-.
Defined.

Lemma prepare_stimuli_too_few_channels_witness :
  prepare_stimuli 0%Z two_channels 3 0 = Raise IndexError
  ∧ prepare_stimuli 0%Z two_channels 3 1 = Raise ShapeMismatch.
Proof.
  split.
  - apply (prepare_stimuli_too_few_channels 0%Z two_channels 3 0
             two_channels_wf). simpl. lia.
  - apply (prepare_stimuli_too_few_channels 0%Z two_channels 3 1
             two_channels_wf). simpl. lia.
Defined.

(** C5 as stated fails: with one channel and [d = 1], the column of the
    pair (0, 1) holds in row 2 the sample of time 1, one sample earlier,
    not the sample of time 0, which is [d + j = 2] samples earlier. *)
Lemma prepare_stimuli_lag_is_not_d_plus_j :
  let M := NDArray 3 2 [[1; 0]; [2; 1]; [3; 2]]%Z in
  prepare_stimuli 0%Z one_channel 1 1 = Ok M
  ∧ column_order 1 1 !! 1 = Some (0, 1)
  ∧ entry M 2 1 = Some 2%Z
  ∧ lagged 0%Z one_channel 0 (1 + 1) 2 = Some 1%Z
  ∧ entry M 2 1 ≠ lagged 0%Z one_channel 0 (1 + 1) 2.
Proof. repeat split; done. Qed.

(** C7 as stated fails: asked for three channels of a stimulus that has
    two, without lags, the builder fails by indexing out of bounds. *)
Lemma prepare_stimuli_index_out_of_bounds :
  nrows two_channels < 3
  ∧ prepare_stimuli 0%Z two_channels 3 0 = Raise IndexError.
Proof. split; [simpl; lia|done]. Qed.

(** After twenty calls the first line itself is wrong: it reads
    ["N: 110"]. *)
Example save_results_twenty_trials :
  match save_all id (replicate 20 test_result) None with
  | Ok f => head (split nl (text_of f))
  | Raise _ => None
  end = Some (txt "N: 110").
Proof. vm_compute. reflexivity. Qed.

(** ** Runs of epochs *)

Section Segments.
Context {A : Type}.
Implicit Types l : list A.

(** Every slice is a run of consecutive items of the list. *)
Lemma slice_segment lo hi l :
  ∃ before after, l = before ++ slice lo hi l ++ after.
Proof.
  unfold slice.
  set (a := Z.to_nat (adjust_index _ (default 0%Z lo))).
  set (n := Z.to_nat _).
  exists (take a l), (drop n (drop a l)). by rewrite !take_drop.
Qed.

Lemma adjust_index_nonneg (len i : Z) :
  (0 ≤ len)%Z → (0 ≤ i)%Z → adjust_index len i = Z.min i len.
Proof.
  intros Hlen Hi. unfold adjust_index.
  repeat case_match; rewrite ?Z.ltb_lt, ?Z.ltb_ge in *; lia.
Qed.

(** A slice between bounds that are not negative, by [take] and [drop]. *)
Lemma slice_between l (a b : Z) :
  (0 ≤ a)%Z → (0 ≤ b)%Z →
  slice (Some a) (Some b) l
  = take (Z.to_nat b - Z.to_nat a) (drop (Z.to_nat a) l).
Proof.
  intros Ha Hb. unfold slice. simpl.
  rewrite !adjust_index_nonneg by lia.
  destruct (decide (Z.of_nat (length l) ≤ a)%Z) as [Hl|Hl].
  - rewrite !drop_ge by lia. by rewrite !take_nil.
  - replace (Z.min a (Z.of_nat (length l))) with a by lia.
    destruct (decide (Z.of_nat (length l) ≤ b)%Z) as [Hl'|Hl'].
    + rewrite !take_ge; [done|rewrite length_drop; lia..].
    + f_equal. lia.
Qed.

(** An open slice ends at the length of the list. *)
Lemma slice_open l (a : Z) :
  slice (Some a) None l = slice (Some a) (Some (Z.of_nat (length l))) l.
Proof. done. Qed.

(** Two slices that meet make one. *)
Lemma slice_app l (a b c : Z) :
  (0 ≤ a ≤ b)%Z → (b ≤ c)%Z →
  slice (Some a) (Some b) l ++ slice (Some b) (Some c) l
  = slice (Some a) (Some c) l.
Proof.
  intros Hab Hbc. rewrite !slice_between by lia.
  replace (drop (Z.to_nat b) l)
    with (drop (Z.to_nat b - Z.to_nat a) (drop (Z.to_nat a) l))
    by (rewrite drop_drop; f_equal; lia).
  rewrite take_take_drop. f_equal. lia.
Qed.

End Segments.

Section ResolverRuns.
Context {name : Type} (fl : Q → Q).
Implicit Types (val_epochs : list name) (start stop : Q).
Local Open Scope Q_scope.

(** X1.  Whenever the resolver returns, the names it returns are a run of
    consecutive matching epochs in their order: it never repeats, reorders
    or invents a name. *)
Theorem time_to_stimuli_run val_epochs interval names index :
  time_to_stimuli fl val_epochs interval = Ok (names, index) →
  ∃ before after, val_epochs = before ++ names ++ after.
Proof.
  unfold time_to_stimuli. repeat case_match; intros [= <- <-];
    apply slice_segment.
Qed.

(** X2.  For an interval that starts in epoch [si] and ends in epoch [ei],
    [si <= ei], both inside the recording, the resolver returns the
    epochs [si] to [ei], that is [ei - si + 1] names, unless the end is an
    exact multiple of 1.5 and [ei] is not zero: then the epoch [ei] is left
    out and [ei - si] names are returned. *)
Theorem time_to_stimuli_count val_epochs start stop (si ei : nat) :
  0 <= start →
  Qfloor (fl (start / epoch_step)) = Z.of_nat si →
  Qfloor (fl (stop / epoch_step)) = Z.of_nat ei →
  (si ≤ ei < length val_epochs)%nat →
  ∃ names,
    time_to_stimuli fl val_epochs (start, stop)
    = Ok (names, (Z.of_nat si, Z.of_nat ei))
    ∧ (ei ≠ 0%nat → exact_multiple stop →
       names = take (ei - si) (drop si val_epochs)
       ∧ length names = (ei - si)%nat)
    ∧ (ei = 0%nat ∨ ¬ exact_multiple stop →
       names = take (ei - si + 1) (drop si val_epochs)
       ∧ length names = (ei - si + 1)%nat).
Proof.
  intros Hstart Hsi Hei Hrange.
  destruct (time_to_stimuli_cases fl val_epochs start stop Hstart)
    as (_ & _ & Hmul & Hrest).
  rewrite Hsi, Hei in Hmul, Hrest.
  destruct (Qeq_bool (Time.pymod stop epoch_step) 0) eqn:Em.
  - apply pymod_zero_iff in Em. destruct (decide (ei = 0%nat)) as [E0|E0].
    + eexists. split; [apply Hrest; [lia|left; lia]|].
      split; [done|]. intros _.
      replace (Z.of_nat ei + 1)%Z with (Z.of_nat (ei + 1)) by lia.
      rewrite slice_take_drop by lia.
      replace (ei + 1 - si)%nat with (ei - si + 1)%nat by lia.
      split; [done|]. rewrite length_take, length_drop. lia.
    + eexists. split; [apply Hmul; [lia|lia|done]|].
      split; [|by intros [?|?]]. intros _ _.
      rewrite slice_take_drop by lia.
      split; [done|]. rewrite length_take, length_drop. lia.
  - assert (Hnot : ¬ exact_multiple stop).
    { intros Hm. apply pymod_zero_iff in Hm. congruence. }
    eexists. split; [apply Hrest; [lia|by right]|].
    split; [done|]. intros _.
    replace (Z.of_nat ei + 1)%Z with (Z.of_nat (ei + 1)) by lia.
    rewrite slice_take_drop by lia.
    replace (ei + 1 - si)%nat with (ei - si + 1)%nat by lia.
    split; [done|]. rewrite length_take, length_drop. lia.
Qed.

(** X3.  Two intervals that meet at a time [b] which is an exact multiple
    of 1.5, other than the first epoch boundary, share no epoch: the
    names of (a, b) followed by the names of (b, c) are the names of
    (a, c). *)
Theorem time_to_stimuli_adjacent val_epochs a b c :
  0 <= a → 0 <= b → exact_multiple b →
  let ai := Qfloor (fl (a / epoch_step)) in
  let bi := Qfloor (fl (b / epoch_step)) in
  let ci := Qfloor (fl (c / epoch_step)) in
  let count := Z.of_nat (length val_epochs) in
  (0 ≤ ai ≤ bi)%Z → bi ≠ 0%Z → (bi ≤ ci ≤ count)%Z →
  ∃ names1 names2,
    time_to_stimuli fl val_epochs (a, b) = Ok (names1, (ai, bi))
    ∧ time_to_stimuli fl val_epochs (b, c) = Ok (names2, (bi, ci))
    ∧ time_to_stimuli fl val_epochs (a, c) = Ok (names1 ++ names2, (ai, ci)).
Proof.
  intros Ha Hb Hmul ai bi ci count Hab Hnz Hbc.
  destruct (time_to_stimuli_cases fl val_epochs a b Ha)
    as (Hab1 & _ & Hab3 & _).
  destruct (time_to_stimuli_cases fl val_epochs b c Hb)
    as (Hbc1 & _ & Hbc3 & Hbc4).
  destruct (time_to_stimuli_cases fl val_epochs a c Ha)
    as (Hac1 & _ & Hac3 & Hac4).
  fold ai bi ci count in Hab1, Hab3, Hbc1, Hbc3, Hbc4, Hac1, Hac3, Hac4.
  assert (Hleft : ∃ names1,
    time_to_stimuli fl val_epochs (a, b) = Ok (names1, (ai, bi))
    ∧ names1 = slice (Some ai) (Some bi) val_epochs).
  { destruct (decide (bi = count)) as [E|E].
    - eexists. split; [by apply Hab1|]. by rewrite slice_open, E.
    - eexists. split; [apply Hab3; [lia|done..]|done]. }
  destruct Hleft as (names1 & H1 & ->). rewrite H1.
  assert (Hright : ∃ hi,
    (bi ≤ hi)%Z
    ∧ time_to_stimuli fl val_epochs (b, c)
      = Ok (slice (Some bi) (Some hi) val_epochs, (bi, ci))
    ∧ time_to_stimuli fl val_epochs (a, c)
      = Ok (slice (Some ai) (Some hi) val_epochs, (ai, ci))).
  { destruct (decide (ci = count)) as [E|E].
    - exists count. split; [lia|].
      rewrite Hbc1, Hac1 by done. by rewrite !slice_open.
    - destruct (Qeq_bool (Time.pymod c epoch_step) 0) eqn:Em.
      + apply pymod_zero_iff in Em. exists ci. split; [lia|].
        rewrite Hbc3, Hac3 by (done || lia). done.
      + assert (Hnot : ¬ exact_multiple c).
        { intros Hm. apply pymod_zero_iff in Hm. congruence. }
        exists (ci + 1)%Z. split; [lia|].
        rewrite Hbc4, Hac4 by ((by right) || lia). done. }
  destruct Hright as (hi & Hhi & -> & ->).
  eexists _, _. split; [done|]. split; [done|].
  by rewrite slice_app.
Qed.

End ResolverRuns.

Lemma time_to_stimuli_run_witness :
  ∃ before after,
    ["STIM_00a"; "STIM_00b"; "STIM_00c"]%string
    = before ++ ["STIM_00b"]%string ++ after.
Proof.
  apply (time_to_stimuli_run Time.exact
           ["STIM_00a"; "STIM_00b"; "STIM_00c"]%string (3 # 2, 3)%Q
           ["STIM_00b"]%string (1, 2)%Z).
  reflexivity.
Defined.

Lemma time_to_stimuli_count_witness :
  ∃ names,
    time_to_stimuli Time.exact
      ["STIM_00a"; "STIM_00b"; "STIM_00c"; "STIM_00d"]%string (2, 4)%Q
    = Ok (names, (1, 2)%Z)
    ∧ length names = 2%nat.
Proof.
  destruct (time_to_stimuli_count Time.exact
              ["STIM_00a"; "STIM_00b"; "STIM_00c"; "STIM_00d"]%string
              2%Q 4%Q 1 2)
    as (names & Hn & _ & Hlen); [done|reflexivity|reflexivity|simpl; lia|].
  exists names. split; [done|]. apply Hlen. right.
  intros Hm. apply (pymod_zero_iff 4%Q) in Hm. discriminate.
Defined.

Lemma time_to_stimuli_adjacent_witness :
  ∃ names1 names2,
    time_to_stimuli Time.exact
      ["STIM_00a"; "STIM_00b"; "STIM_00c"; "STIM_00d"]%string (0, 3)%Q
    = Ok (names1, (0, 2)%Z)
    ∧ time_to_stimuli Time.exact
        ["STIM_00a"; "STIM_00b"; "STIM_00c"; "STIM_00d"]%string (3, 5)%Q
      = Ok (names2, (2, 3)%Z)
    ∧ time_to_stimuli Time.exact
        ["STIM_00a"; "STIM_00b"; "STIM_00c"; "STIM_00d"]%string (0, 5)%Q
      = Ok (names1 ++ names2, (0, 3)%Z).
Proof.
  apply (time_to_stimuli_adjacent Time.exact
           ["STIM_00a"; "STIM_00b"; "STIM_00c"; "STIM_00d"]%string
           0%Q 3%Q 5%Q); [done|done|by exists 2%Z|done|done|done].
Defined.

(** ** More on the design matrix *)

Section DesignMatrixMore.
Context {A : Type} (zero : A).
Implicit Types (stim : ndarray A) (m d i j c t : nat).

(** X4.  Asked for no channel, the builder returns no matrix, empty or
    not: whatever the stimulus and the lag depth, the first column is
    read off channel 0 of an array that has no channel, which fails by
    indexing out of bounds. *)
Theorem prepare_stimuli_no_channel stim d :
  prepare_stimuli zero stim 0 d = Raise IndexError.
Proof.
  unfold prepare_stimuli, pad_stimuli, first_rows.
  destruct (decide (0 < d)) as [Hd|Hd]; [|done].
  unfold hstack. cbn [nrows zeros]. by rewrite decide_True by lia.
Qed.

(** X5.  In the matrix the builder returns, the column of lag [j + 1] of
    a channel is the column of lag [j] of that channel moved down by one
    row, with a zero on top: the columns of one channel form a Toeplitz
    block. *)
Theorem prepare_stimuli_shifted_columns stim m d :
  wf stim → 1 ≤ m ≤ nrows stim →
  ∃ M,
    prepare_stimuli zero stim m d = Ok M
    ∧ ∀ i j, i < m → j < d →
        let c := i * (d + 1) + j in
        (0 < ncols stim → entry M 0 (c + 1) = Some zero)
        ∧ ∀ t, t + 1 < ncols stim → entry M (t + 1) (c + 1) = entry M t c.
Proof.
  intros Hwf Hm. exists (design_matrix zero stim m d).
  split; [by apply prepare_stimuli_design_matrix|].
  intros i j Hi Hj c.
  assert (Hc : column_order m d !! c = Some (i, j))
    by (apply column_order_lookup; lia).
  assert (Hc' : column_order m d !! (c + 1) = Some (i, j + 1)).
  { unfold c. rewrite <- Nat.add_assoc. apply column_order_lookup; lia. }
  split.
  - intros Ht. rewrite (design_matrix_entry zero stim m d _ i (j + 1)) by done.
    unfold lagged. by rewrite decide_True by lia.
  - intros t Ht.
    rewrite (design_matrix_entry zero stim m d _ i (j + 1)) by done.
    rewrite (design_matrix_entry zero stim m d _ i j) by (done || lia).
    unfold lagged. destruct (decide (t < j)) as [Htj|Htj].
    + by rewrite decide_True by lia.
    + rewrite decide_False by lia. f_equal. lia.
Qed.

(** X6.  The column of a pair (channel, lag) does not depend on how many
    channels and lags are asked for: the matrix for more channels or a
    larger lag depth holds every column of the smaller one, the column of
    (i, j) moving from position [i * (d + 1) + j] to
    [i * (d' + 1) + j]. *)
Theorem prepare_stimuli_more_columns stim m d m' d' :
  wf stim → 1 ≤ m → m ≤ m' → m' ≤ nrows stim → d ≤ d' →
  ∃ M M',
    prepare_stimuli zero stim m d = Ok M
    ∧ prepare_stimuli zero stim m' d' = Ok M'
    ∧ ∀ i j, i < m → j ≤ d →
        column M (i * (d + 1) + j) = column M' (i * (d' + 1) + j).
Proof.
  intros Hwf Hm1 Hmm Hm' Hd.
  exists (design_matrix zero stim m d), (design_matrix zero stim m' d').
  split; [apply prepare_stimuli_design_matrix; [done|lia]|].
  split; [apply prepare_stimuli_design_matrix; [done|lia]|].
  intros i j Hi Hj.
  rewrite (design_matrix_column zero stim m d _ i j)
    by (by apply column_order_lookup).
  rewrite (design_matrix_column zero stim m' d' _ i j)
    by (apply column_order_lookup; lia).
  done.
Qed.

(** X7.  The builder is causal: row [t] of the matrix is made of the
    samples up to time [t] only.  Two stimuli whose first [m] channels
    agree up to time [t] give matrices with the same row [t], whatever
    they hold afterwards. *)
Theorem prepare_stimuli_causal stim1 stim2 m d t :
  wf stim1 → wf stim2 →
  1 ≤ m → m ≤ nrows stim1 → m ≤ nrows stim2 →
  t < ncols stim1 → t < ncols stim2 →
  (∀ i u, i < m → u ≤ t → entry stim1 i u = entry stim2 i u) →
  ∃ M1 M2 r,
    prepare_stimuli zero stim1 m d = Ok M1
    ∧ prepare_stimuli zero stim2 m d = Ok M2
    ∧ row M1 t = Ok r ∧ row M2 t = Ok r.
Proof.
  intros Hwf1 Hwf2 Hm Hm1 Hm2 Ht1 Ht2 Hsame.
  exists (design_matrix zero stim1 m d), (design_matrix zero stim2 m d).
  exists ((λ p, lag_value zero stim1 p.1 p.2 t) <$> column_order m d).
  split; [apply prepare_stimuli_design_matrix; [done|lia]|].
  split; [apply prepare_stimuli_design_matrix; [done|lia]|].
  unfold row, item, design_matrix, tabulate. cbn [rows].
  rewrite !list_lookup_fmap, !lookup_seq_lt by done.
  cbn [fmap option_fmap option_map].
  rewrite <- !list_fmap_compose. split; [done|]. f_equal.
  apply list_fmap_ext. intros c [i j] Hc. unfold compose. cbn [fst snd].
  destruct (column_order_position m d c i j) as (Hi & _); [lia|done|].
  change (0 + t) with t. unfold lag_value, lagged.
  destruct (decide (t < j)); [done|]. by rewrite Hsame by lia.
Qed.

End DesignMatrixMore.

Lemma prepare_stimuli_shifted_columns_witness :
  ∃ M,
    prepare_stimuli 0%Z two_channels 2 1 = Ok M
    ∧ entry M 0 3 = Some 0%Z
    ∧ entry M 2 3 = entry M 1 2.
Proof.
  destruct (prepare_stimuli_shifted_columns 0%Z two_channels 2 1
              two_channels_wf) as (M & HM & Hshift); [simpl; lia|].
  exists M. split; [done|].
  destruct (Hshift 1 0) as [Htop Hdown]; [lia..|].
  split; [apply Htop; simpl; lia|apply (Hdown 1); simpl; lia].
Defined.

Lemma prepare_stimuli_more_columns_witness :
  ∃ M M',
    prepare_stimuli 0%Z two_channels 1 0 = Ok M
    ∧ prepare_stimuli 0%Z two_channels 2 1 = Ok M'
    ∧ column M 0 = column M' 0.
Proof.
  destruct (prepare_stimuli_more_columns 0%Z two_channels 1 0 2 1
              two_channels_wf) as (M & M' & HM & HM' & Hcol);
    [simpl; lia..|].
  exists M, M'. split; [done|]. split; [done|]. apply (Hcol 0 0); lia.
Defined.

Lemma prepare_stimuli_causal_witness :
  ∃ M1 M2 r,
    prepare_stimuli 0%Z two_channels 1 1 = Ok M1
    ∧ prepare_stimuli 0%Z one_channel 1 1 = Ok M2
    ∧ row M1 2 = Ok r ∧ row M2 2 = Ok r.
Proof.
  apply (prepare_stimuli_causal 0%Z two_channels one_channel 1 1 2);
    [apply two_channels_wf|split; [done|by repeat constructor]
    |simpl; lia..|].
  intros i u Hi Hu. by replace i with 0 by lia.
Defined.

(** ** More on the ledger *)

Section TextMore.
Implicit Types (s p rest : str) (c : ascii).

Lemma split_one_line p : Forall (λ c, c ≠ nl) p → split nl p = [p].
Proof.
  induction 1 as [|x p Hx _ IH]; simpl; [done|].
  apply Ascii.eqb_neq in Hx. by rewrite Hx, IH.
Qed.

Lemma readlines_one_line p :
  p ≠ [] → Forall (λ c, c ≠ nl) p → readlines p = [p].
Proof.
  intros Hne Hp. induction Hp as [|x p Hx Hp IH]; [done|]. simpl.
  apply Ascii.eqb_neq in Hx. rewrite Hx.
  destruct p as [|y p]; [done|]. by rewrite IH.
Qed.

Lemma readlines_Forall (P : ascii → Prop) s :
  Forall P s → Forall (Forall P) (readlines s).
Proof. intros Hs. apply Forall_concat. by rewrite concat_readlines. Qed.

Lemma slice_Forall (P : ascii → Prop) lo hi s :
  Forall P s → Forall P (slice lo hi s).
Proof. intros Hs. unfold slice. by apply Forall_take, Forall_drop. Qed.

(** The digit of a number below ten. *)
Lemma of_int_digit (n : nat) :
  n < 10 →
  ∃ c, of_int (Z.of_nat n) = [c] ∧ is_digit c
       ∧ int_of_char c = Ok (Z.of_nat n).
Proof.
  intros Hn.
  do 10 (destruct n as [|n];
    [eexists; split; [reflexivity|split; [vm_compute; lia|reflexivity]]|]).
  lia.
Qed.

End TextMore.

Section LedgerMore.
Context {num : Type} (str_num : num → str).
Implicit Types (r : RecordingData (num := num)) (f : file).
Implicit Types (first pre rest : str) (c : ascii).

(** The count that [bump_counter] reads is one digit. *)
Lemma bump_counter_digit content n text :
  bump_counter content = Ok (n, text) → (0 ≤ n ≤ 9)%Z.
Proof.
  unfold bump_counter.
  destruct (item (split nl content) 0) as [first|]; [|done].
  cbn [mbind result_mbind Py.bind].
  destruct (item_last first) as [c|]; [|done].
  cbn [mbind result_mbind Py.bind].
  unfold int_of_char. destruct (decide _) as [Hc|]; [|done].
  cbn [mbind result_mbind Py.bind].
  destruct (item (readlines content) 0); [|done].
  cbn [mbind result_mbind Py.bind].
  intros [= <- _]. lia.
Qed.

(** The rewrite of the first line brings in no carriage return. *)
Lemma bump_counter_no_cr content n text :
  no_cr content → bump_counter content = Ok (n, text) → no_cr text.
Proof.
  intros Hcontent. unfold bump_counter.
  destruct (item (split nl content) 0) as [first|]; [|done].
  cbn [mbind result_mbind Py.bind].
  destruct (item_last first) as [c|]; [|done].
  cbn [mbind result_mbind Py.bind].
  destruct (int_of_char c) as [k|]; [|done].
  cbn [mbind result_mbind Py.bind].
  unfold item.
  destruct (readlines content !! 0) as [line0|] eqn:Hline0; [|done].
  cbn [mbind result_mbind Py.bind].
  intros [= _ <-]. apply Forall_concat.
  pose proof (readlines_Forall _ content Hcontent) as Hlines.
  apply Forall_insert; [done|].
  apply Forall_app. split.
  - apply slice_Forall. by apply (Forall_lookup_1 _ _ 0 line0) in Hlines.
  - apply Forall_app. split; [apply no_cr_of_int|by repeat constructor].
Qed.

(** A call with a plain record brings in no carriage return. *)
Lemma save_results_no_cr r f f' :
  plain str_num r → no_cr (text_of f) →
  save_results str_num r f = Ok f' → no_cr (text_of f').
Proof.
  intros Hr Hf. unfold save_results.
  assert (Hcontent : no_cr (open_file f).1) by (by destruct f).
  destruct (open_file f) as [content f0]. cbn [fst] in Hcontent.
  assert (Hnew : ∀ n, no_cr (txt "N: " ++ of_int n ++ [nl])).
  { intros n. apply Forall_app. split; [by repeat constructor|].
    apply Forall_app. split; [apply no_cr_of_int|by repeat constructor]. }
  destruct (decide (length content ≠ 0)) as [Hne|_].
  - destruct (bump_counter content) as [[n text]|] eqn:Hbump; [|done].
    apply bump_counter_no_cr in Hbump; [|done].
    cbn [mbind result_mbind Py.bind]. intros [= <-]. cbn [text_of].
    apply Forall_app. split; [|by apply no_cr_result_text].
    destruct (decide _); [|done].
    apply Forall_app. split; [done|exact (Hnew _)].
  - cbn [mbind result_mbind Py.bind]. intros [= <-]. cbn [text_of].
    apply Forall_app. split; [|by apply no_cr_result_text].
    apply Forall_app. split; [done|exact (Hnew 1%Z)].
Qed.

(** On a file without carriage return the stored characters are the text
    read. *)
Lemma save_results_stored_no_cr r f :
  no_cr (text_of f) →
  save_results_stored str_num r f = save_results str_num r f.
Proof.
  intros Hf. unfold save_results_stored. destruct f as [content|]; [|done].
  cbn [fmap option_fmap option_map]. by rewrite universal_newlines_no_cr.
Qed.

(** With plain records, a sequence of calls does to the stored characters
    what it does to the text. *)
Lemma save_all_stored_plain trials f :
  Forall (plain str_num) trials → no_cr (text_of f) →
  save_all_stored str_num trials f = save_all str_num trials f.
Proof.
  intros Htrials. revert f.
  induction Htrials as [|r trials Hr _ IH]; intros f Hf; [done|].
  unfold save_all_stored, save_all. cbn [for_each].
  rewrite save_results_stored_no_cr by done.
  destruct (save_results str_num r f) as [f'|] eqn:Hcall; [|done].
  cbn [Py.bind]. apply IH. by apply (save_results_no_cr r f).
Qed.

(** A stored call on a file whose first line ends with a digit. *)
Lemma save_results_stored_step r pre c n rest :
  Forall (λ x, x ≠ nl) pre → no_cr pre → is_digit c →
  int_of_char c = Ok n →
  save_results_stored str_num r (Some (pre ++ c :: nl :: rest))
  = Ok (Some (pre ++ of_int (n + 1) ++ nl :: universal_newlines rest
                ++ (if decide (n + 1 = 1)%Z
                    then txt "N: " ++ of_int (n + 1) ++ [nl] else [])
                ++ result_text str_num r (n + 1))).
Proof.
  intros Hpre Hcr Hc Hn. unfold save_results_stored.
  cbn [fmap option_fmap option_map]. unfold str.
  assert (Hline : no_cr (pre ++ [c; nl])).
  { apply Forall_app. split; [done|].
    constructor; [by apply is_digit_not_cr|by repeat constructor]. }
  replace (pre ++ c :: nl :: rest) with ((pre ++ [c; nl]) ++ rest)
    by (by reassoc).
  rewrite (universal_newlines_app _ rest Hline).
  replace ((pre ++ [c; nl]) ++ universal_newlines rest)
    with (pre ++ c :: nl :: universal_newlines rest) by (by reassoc).
  by apply save_results_step; [|apply is_digit_not_nl|].
Qed.

(** X8.  Up to ten calls on one path with records that hold no carriage
    return, starting from a missing or an empty file, leave the ledger
    of the trials: a first line ["N: <k>"] with [k] the number of calls,
    then the [k] trial blocks in the order of the calls, numbered 1 to
    [k]. *)
Theorem save_results_up_to_ten trials (missing : bool) :
  Forall (plain str_num) trials → 1 ≤ length trials ≤ 10 →
  save_all_stored str_num trials (if missing then None else Some [])
  = Ok (Some (ledger_text str_num trials))
  ∧ counter (Some (ledger_text str_num trials))
    = Some (Z.of_nat (length trials)).
Proof.
  intros Hplain Hlen. split.
  - rewrite save_all_stored_plain by (done || destruct missing; constructor).
    by apply save_all_first_ten.
  - unfold ledger_text. destruct (decide (length trials = 10)) as [->|Hne].
    + assert (H1 : Forall is_digit ["1"%char])
        by (apply Forall_singleton; vm_compute; lia).
      assert (H0 : is_digit "0"%char) by (vm_compute; lia).
      exact (counter_first_line ["1"%char] "0"%char _ H1 H0).
    + destruct (of_int_digit (length trials))
        as (c & -> & Hc & Hint); [lia|].
      rewrite (int_of_char_digit c Hc) in Hint. injection Hint as Hint.
      etrans; [exact (counter_first_line [] c _ (Forall_nil_2 _) Hc)|].
      unfold digits_value. simpl. f_equal. lia.
Qed.

(** The call on the text read, when the first line of the text is
    [first]. *)
Lemma save_results_reads_first_line r first rest :
  Forall (λ c, c ≠ nl) first → rest = [] ∨ head rest = Some nl →
  first ++ rest ≠ [] →
  match last first with
  | None =>
      save_results str_num r (Some (first ++ rest)) = Raise IndexError
  | Some c =>
      if decide (is_digit c)
      then ∃ f', save_results str_num r (Some (first ++ rest)) = Ok f'
      else save_results str_num r (Some (first ++ rest))
           = Raise InvalidLiteral
  end.
Proof.
  intros Hfirst Hrest Hne.
  assert (Hsplit : item (split nl (first ++ rest)) 0 = Ok first).
  { destruct Hrest as [->|Hrest].
    - by rewrite app_nil_r, split_one_line.
    - destruct rest as [|x rest]; [done|]. injection Hrest as ->.
      by rewrite split_first_line. }
  assert (Hlines : ∃ line0, item (readlines (first ++ rest)) 0 = Ok line0).
  { destruct Hrest as [->|Hrest].
    - rewrite app_nil_r in *. rewrite readlines_one_line by done.
      by eexists.
    - destruct rest as [|x rest]; [done|]. injection Hrest as ->.
      rewrite readlines_first_line by done. by eexists. }
  destruct Hlines as [line0 Hlines].
  unfold save_results, open_file.
  rewrite decide_True by (by destruct first, rest).
  unfold bump_counter. rewrite Hsplit. cbn [mbind result_mbind Py.bind].
  unfold item_last.
  destruct (last first) as [c|]; [|done].
  cbn [mbind result_mbind Py.bind].
  destruct (decide (is_digit c)) as [Hc|Hc].
  - rewrite (int_of_char_digit c Hc). cbn [mbind result_mbind Py.bind].
    rewrite Hlines. cbn [mbind result_mbind Py.bind]. by eexists.
  - unfold int_of_char. by rewrite decide_False by done.
Qed.

(** X9.  On a file that is not empty the call reads the last character of
    the first line and nothing else of it.  When the first line is empty
    the call fails by indexing out of bounds; when its last character is
    not a decimal digit the call fails in [int]; when it is a digit the
    call succeeds, whatever else the line and the file hold.  The first
    line is what is stored before the first line feed or carriage
    return. *)
Theorem save_results_first_line r first rest :
  Forall (λ c, c ≠ nl ∧ c ≠ cr) first →
  rest = [] ∨ head rest = Some nl ∨ head rest = Some cr →
  first ++ rest ≠ [] →
  match last first with
  | None =>
      save_results_stored str_num r (Some (first ++ rest))
      = Raise IndexError
  | Some c =>
      if decide (is_digit c)
      then ∃ f',
             save_results_stored str_num r (Some (first ++ rest)) = Ok f'
      else save_results_stored str_num r (Some (first ++ rest))
           = Raise InvalidLiteral
  end.
Proof.
  intros Hfirst Hrest Hne. unfold save_results_stored.
  cbn [fmap option_fmap option_map].
  rewrite universal_newlines_app
    by (eapply Forall_impl; [done|]; by intros c [_ ?]).
  apply save_results_reads_first_line.
  - eapply Forall_impl; [done|]. by intros c [? _].
  - destruct Hrest as [->|[Hrest|Hrest]]; [by left|right..];
      destruct rest as [|x rest]; try done; injection Hrest as ->; done.
  - destruct first; [|done]. destruct rest as [|x rest]; [done|].
    destruct Hrest as [?|[Hrest|Hrest]]; [done|..];
      injection Hrest as ->; done.
Qed.

(** X10.  Whatever the file holds, a call that succeeds appends a block
    whose number is between 1 and 10: the count is read off one digit, so
    that no block is ever numbered 11 or more. *)
Theorem save_results_block_number r f f' :
  save_results_stored str_num r f = Ok f' →
  ∃ n before,
    (1 ≤ n ≤ 10)%Z ∧ text_of f' = before ++ result_text str_num r n.
Proof.
  unfold save_results_stored, save_results.
  destruct (open_file (universal_newlines <$> f)) as [content f0].
  destruct (decide (length content ≠ 0)) as [Hne|_].
  - destruct (bump_counter content) as [[n text]|] eqn:Hbump; [|done].
    apply bump_counter_digit in Hbump. cbn [mbind result_mbind Py.bind].
    intros [= <-]. eexists (n + 1)%Z, _. split; [lia|]. reflexivity.
  - cbn [mbind result_mbind Py.bind]. intros [= <-].
    eexists 1%Z, _. split; [lia|]. reflexivity.
Qed.

Lemma counter_digits_no_newline (k : nat) :
  Forall (λ x, x ≠ nl) (txt "N: " ++ replicate k "1"%char)
  ∧ no_cr (txt "N: " ++ replicate k "1"%char).
Proof.
  split; (apply Forall_app; split;
    [by repeat constructor|apply Forall_replicate; discriminate]).
Qed.

(** The last digit of [k + 1] and the number of tens of [k + 1]. *)
Lemma next_count (k : nat) :
  (k mod 10 = 9 ∧ (k + 1) / 10 = S (k / 10) ∧ (k + 1) mod 10 = 0)
  ∨ (k mod 10 < 9 ∧ (k + 1) / 10 = k / 10
     ∧ (k + 1) mod 10 = k mod 10 + 1).
Proof.
  pose proof (Nat.div_mod_eq k 10) as Hk.
  pose proof (Nat.mod_upper_bound k 10) as Hr.
  destruct (decide (k mod 10 = 9)) as [E9|E9].
  - left. split; [done|]. split.
    + symmetry. apply (Nat.div_unique _ _ _ 0); lia.
    + symmetry. apply (Nat.mod_unique _ _ (S (k / 10))); lia.
  - right. split; [lia|]. split.
    + symmetry. apply (Nat.div_unique _ _ _ (k mod 10 + 1)); lia.
    + symmetry. apply (Nat.mod_unique _ _ (k / 10)); lia.
Qed.

(** One more call on a file whose first line holds [k / 10] digits 1 and
    the last digit of [k]. *)
Lemma save_results_stored_next r (k : nat) c rest :
  is_digit c → int_of_char c = Ok (Z.of_nat (k mod 10)) →
  ∃ c' body,
    is_digit c' ∧ int_of_char c' = Ok (Z.of_nat ((k + 1) mod 10))
    ∧ of_int (Z.of_nat ((k + 1) mod 10)) = [c']
    ∧ save_results_stored str_num r
        (Some (txt "N: " ++ replicate (k / 10) "1"%char ++ c :: nl :: rest))
      = Ok (Some (txt "N: " ++ replicate ((k + 1) / 10) "1"%char
                    ++ c' :: nl :: body
                    ++ result_text str_num r (Z.of_nat (k mod 10) + 1))).
Proof.
  intros Hc Hint.
  destruct (counter_digits_no_newline (k / 10)) as [Hnl Hcr].
  rewrite app_assoc.
  rewrite (save_results_stored_step r _ c _ rest Hnl Hcr Hc Hint).
  rewrite (app_assoc (universal_newlines rest)).
  set (body := universal_newlines rest ++ _).
  destruct (next_count k) as [(E9 & -> & ->)|(E9 & -> & ->)].
  - exists "0"%char, body. split; [vm_compute; lia|].
    split; [reflexivity|]. split; [reflexivity|].
    rewrite E9. do 2 f_equal.
    change (of_int (Z.of_nat 9 + 1)) with ["1"; "0"]%char.
    rewrite replicate_S_end. by reassoc.
  - destruct (of_int_digit (k mod 10 + 1)) as (c' & Hof & Hc' & Hint');
      [lia|].
    exists c', body. split; [done|]. split; [done|]. split; [done|].
    do 2 f_equal.
    replace (Z.of_nat (k mod 10) + 1)%Z with (Z.of_nat (k mod 10 + 1))
      by lia.
    rewrite Hof. by reassoc.
Qed.

(** The first line after [k] calls: the digits are [k / 10] ones and the
    last digit of [k]. *)
Lemma save_all_stored_digits trials (missing : bool) :
  trials ≠ [] →
  ∃ c rest,
    save_all_stored str_num trials (if missing then None else Some [])
    = Ok (Some (txt "N: " ++ replicate (length trials / 10) "1"%char
                  ++ c :: nl :: rest))
    ∧ is_digit c
    ∧ int_of_char c = Ok (Z.of_nat (length trials mod 10)).
Proof.
  induction trials as [|r trials IH] using rev_ind; [done|]. intros _.
  unfold save_all_stored. rewrite for_each_app, length_app. cbn [length].
  destruct (decide (trials = [])) as [->|Hne].
  - cbn [for_each Py.bind]. unfold save_results_stored.
    replace (universal_newlines <$> (if missing then None else Some []))
      with (if missing then @None str else Some []) by (by destruct missing).
    rewrite save_results_fresh. cbn [Py.bind].
    exists "1"%char, (result_text str_num r 1).
    split; [reflexivity|]. split; [vm_compute; lia|reflexivity].
  - destruct (IH Hne) as (c & rest & Hrun & Hc & Hint).
    fold (save_all_stored str_num trials (if missing then None else Some [])).
    rewrite Hrun. cbn [for_each Py.bind].
    destruct (save_results_stored_next r (length trials) c rest Hc Hint)
      as (c' & body & Hc' & Hint' & _ & ->).
    cbn [Py.bind].
    by exists c', (body ++ result_text str_num r
                             (Z.of_nat (length trials mod 10) + 1)).
Qed.

(** X11.  The number of every block, in any sequence of calls that starts
    from a missing or an empty file: after [k] calls the next one heads
    its block with [k mod 10 + 1], not with [k + 1], and leaves a first
    line that reads ["N: "], then [(k + 1) / 10] digits 1, then the last
    digit of [k + 1]. *)
Theorem save_results_block_numbers trials r (missing : bool) :
  let k := length trials in
  ∃ body,
    save_all_stored str_num (trials ++ [r])
      (if missing then None else Some [])
    = Ok (Some (txt "N: " ++ replicate ((k + 1) / 10) "1"%char
                  ++ of_int (Z.of_nat ((k + 1) mod 10)) ++ [nl] ++ body
                  ++ result_text str_num r (Z.of_nat (k mod 10) + 1))).
Proof.
  intros k. unfold save_all_stored. rewrite for_each_app.
  destruct (decide (trials = [])) as [->|Hne].
  - cbn [for_each Py.bind]. unfold save_results_stored.
    replace (universal_newlines <$> (if missing then None else Some []))
      with (if missing then @None str else Some []) by (by destruct missing).
    rewrite save_results_fresh. cbn [Py.bind]. by exists [].
  - destruct (save_all_stored_digits trials missing Hne)
      as (c & rest & Hrun & Hc & Hint).
    fold (save_all_stored str_num trials (if missing then None else Some [])).
    rewrite Hrun. cbn [for_each Py.bind]. fold k in Hint |- *.
    destruct (save_results_stored_next r k c rest Hc Hint)
      as (c' & body & _ & _ & Hof & ->).
    cbn [Py.bind]. rewrite Hof. by exists body.
Qed.

End LedgerMore.

Lemma test_result_plain : plain id test_result.
Proof. unfold plain, no_cr. repeat split; repeat constructor; discriminate. Qed.

Lemma save_results_up_to_ten_witness :
  save_all_stored id [test_result; test_result] None
  = Ok (Some (ledger_text id [test_result; test_result]))
  ∧ counter (Some (ledger_text id [test_result; test_result])) = Some 2%Z.
Proof.
  apply (save_results_up_to_ten id [test_result; test_result] true).
  - do 2 (constructor; [apply test_result_plain|]). constructor.
  - simpl. lia.
Defined.

Lemma save_results_first_line_witness :
  save_results_stored id test_result (Some (txt "N: x" ++ nl :: txt "Trial"))
  = Raise InvalidLiteral.
Proof.
  assert (Hfirst : Forall (λ c, c ≠ nl ∧ c ≠ cr) (txt "N: x"))
    by (repeat constructor; discriminate).
  assert (Hrest : nl :: txt "Trial" = []
                  ∨ head (nl :: txt "Trial") = Some nl
                  ∨ head (nl :: txt "Trial") = Some cr)
    by (right; by left).
  assert (Hne : txt "N: x" ++ nl :: txt "Trial" ≠ []) by discriminate.
  pose proof (save_results_first_line id test_result (txt "N: x")
                (nl :: txt "Trial") Hfirst Hrest Hne) as Hcall.
  change (last (txt "N: x")) with (Some "x"%char) in Hcall.
  destruct (decide (is_digit "x"%char)) as [Hx|_]; [|exact Hcall].
  exfalso. vm_compute in Hx. lia.
Defined.

Lemma save_results_block_number_witness :
  ∃ n before,
    (1 ≤ n ≤ 10)%Z
    ∧ txt "N: 1" ++ [nl] ++ result_text id test_result 1
      = before ++ result_text id test_result n.
Proof.
  apply (save_results_block_number id test_result None
           (Some (txt "N: 1" ++ [nl] ++ result_text id test_result 1))).
  vm_compute. reflexivity.
Defined.

(** ** Dictionaries *)

Section DictProps.
Context {K V : Type} `{EqDecision K}.
Implicit Types (d : Dict.dict K V) (k : K) (v : V).

Lemma dict_get_None d k : Dict.get d k = None ↔ k ∉ Dict.keys d.
Proof.
  unfold Dict.keys. induction d as [|[k' v'] d IH]; simpl.
  - split; [intros _; apply not_elem_of_nil|done].
  - rewrite not_elem_of_cons. destruct (decide (k' = k)) as [->|Hne].
    + split; [done|]. by intros [? _].
    + rewrite IH. split; [by split|]. by intros [_ ?].
Qed.

Lemma dict_get_set d k v k' :
  Dict.get (Dict.set d k v) k'
  = if decide (k = k') then Some v else Dict.get d k'.
Proof.
  induction d as [|[k0 v0] d IH]; simpl.
  - by destruct (decide (k = k')).
  - destruct (decide (k0 = k)) as [->|Hne]; simpl.
    + by destruct (decide (k = k')).
    + rewrite IH. destruct (decide (k0 = k')) as [->|?]; [|done].
      by rewrite decide_False.
Qed.

(** A new key goes last. *)
Lemma dict_set_new d k v :
  k ∉ Dict.keys d → Dict.set d k v = d ++ [(k, v)].
Proof.
  unfold Dict.keys. induction d as [|[k0 v0] d IH]; simpl; [done|].
  rewrite not_elem_of_cons. intros [Hne Hk].
  rewrite decide_False by done. by rewrite IH.
Qed.

(** A key that is present keeps its place. *)
Lemma dict_keys_set d k v :
  Dict.keys (Dict.set d k v)
  = if decide (k ∈ Dict.keys d) then Dict.keys d else Dict.keys d ++ [k].
Proof.
  unfold Dict.keys. induction d as [|[k0 v0] d IH].
  - cbn [Dict.set fmap list_fmap]. rewrite decide_False; [done|].
    apply not_elem_of_nil.
  - cbn [Dict.set]. destruct (decide (k0 = k)) as [->|Hne].
    + cbn [fmap list_fmap fst]. rewrite decide_True; [done|]. by left.
    + cbn [fmap list_fmap fst]. fold (fmap (M := list) (@fst K V)).
      rewrite IH. destruct (decide (k ∈ d.*1)) as [Hin|Hin].
      * rewrite decide_True; [done|]. by right.
      * rewrite decide_False; [done|]. rewrite not_elem_of_cons. by split.
Qed.

Lemma dict_get_Some d k v :
  NoDup (Dict.keys d) → Dict.get d k = Some v ↔ (k, v) ∈ d.
Proof.
  unfold Dict.keys. induction d as [|[k0 v0] d IH]; simpl.
  - intros _. split; [done|]. by intros ?%elem_of_nil.
  - intros [Hk0 Hd]%NoDup_cons. rewrite elem_of_cons.
    destruct (decide (k0 = k)) as [->|Hne].
    + split; [intros [= ->]; by left|].
      intros [[= ->]|Hin]; [done|]. destruct Hk0.
      apply list_elem_of_fmap. by exists (k, v).
    + rewrite (IH Hd). split; [by right|].
      by intros [[= -> ->]|?].
Qed.

End DictProps.

(** ** Counting by group *)

Section Counts.
Context {X : Type} (group : X → option str).
Implicit Types (d : Dict.dict str Z) (l : list X) (k g : str).

Lemma get_count_one d k g :
  Dict.get (count_one d k) g
  = if decide (k = g) then Some (default 0 (Dict.get d g) + 1)%Z
    else Dict.get d g.
Proof.
  unfold count_one. destruct (decide (k = g)) as [->|Hne].
  - destruct (Dict.get d g); rewrite dict_get_set; by rewrite decide_True.
  - destruct (Dict.get d k); rewrite dict_get_set; by rewrite decide_False.
Qed.

Lemma keys_count_one d k :
  Dict.keys (count_one d k)
  = if decide (k ∈ Dict.keys d) then Dict.keys d else Dict.keys d ++ [k].
Proof. unfold count_one. destruct (Dict.get d k); apply dict_keys_set. Qed.

Lemma occurrences_nil g : occurrences group g [] = 0%Z.
Proof. done. Qed.

Lemma occurrences_cons g x l :
  occurrences group g (x :: l)
  = ((if decide (group x = Some g) then 1 else 0)
     + occurrences group g l)%Z.
Proof.
  unfold occurrences. rewrite filter_cons.
  destruct (decide (group x = Some g)); simpl; lia.
Qed.

Lemma occurrences_nonneg g l : (0 ≤ occurrences group g l)%Z.
Proof. unfold occurrences. lia. Qed.

Lemma occurrences_pos g l :
  occurrences group g l ≠ 0%Z ↔ g ∈ omap group l.
Proof.
  rewrite list_elem_of_omap. unfold occurrences. split.
  - intros Hne. destruct (filter _ l) as [|x l'] eqn:Hf; [done|].
    assert (Hx : x ∈ filter (λ x, group x = Some g) l)
      by (rewrite Hf; by left).
    apply list_elem_of_filter in Hx as [Hg Hx]. by exists x.
  - intros (x & Hx & Hg) Hz.
    assert (Hin : x ∈ filter (λ x, group x = Some g) l)
      by (by apply list_elem_of_filter).
    destruct (filter _ l); [by apply elem_of_nil in Hin|done].
Qed.

Lemma count_all_cons x l d :
  count_all group d (x :: l)
  = count_all group (match group x with
                     | Some k => count_one d k
                     | None => d
                     end) l.
Proof. done. Qed.

(** The count the loop stores for a group: what the dictionary held for
    it, and one more for every item of the group. *)
Lemma get_count_all l d g :
  Dict.get (count_all group d l) g
  = match Dict.get d g with
    | Some n => Some (n + occurrences group g l)%Z
    | None =>
        if decide (occurrences group g l = 0%Z) then None
        else Some (occurrences group g l)
    end.
Proof.
  revert d. induction l as [|x l IH]; intros d.
  - rewrite occurrences_nil. cbn [count_all foldl].
    destruct (Dict.get d g); [|done]. by rewrite Z.add_0_r.
  - rewrite count_all_cons, IH, occurrences_cons.
    pose proof (occurrences_nonneg g l).
    destruct (group x) as [k|];
      [|rewrite (decide_False (P := None = Some g)) by done; done].
    rewrite get_count_one. destruct (decide (k = g)) as [->|Hne].
    + rewrite (decide_True (P := Some g = Some g)) by done.
      destruct (Dict.get d g); simpl; [f_equal; lia|].
      rewrite decide_False by lia. f_equal; lia.
    + rewrite (decide_False (P := Some k = Some g)) by congruence. done.
Qed.

Lemma keys_count_all_NoDup l d :
  NoDup (Dict.keys d) → NoDup (Dict.keys (count_all group d l)).
Proof.
  revert d. induction l as [|x l IH]; intros d Hd; [done|].
  rewrite count_all_cons. apply IH. destruct (group x) as [k|]; [|done].
  rewrite keys_count_one. destruct (decide (k ∈ Dict.keys d)); [done|].
  apply NoDup_app. split; [done|]. split; [|apply NoDup_singleton].
  intros k' Hk' ->%list_elem_of_singleton. done.
Qed.

(** The loop adds at most one key per item, and one key per item only
    when the groups are all there, all new and all different. *)
Lemma keys_count_all_length l d :
  length (Dict.keys (count_all group d l))
  ≤ length (Dict.keys d) + length (omap group l)
  ∧ (length (Dict.keys (count_all group d l))
     = length (Dict.keys d) + length (omap group l) →
     NoDup (Dict.keys d) → NoDup (Dict.keys d ++ omap group l)).
Proof.
  revert d. induction l as [|x l IH]; intros d.
  - cbn [count_all foldl omap list_omap length]. rewrite app_nil_r.
    split; [lia|done].
  - rewrite count_all_cons. cbn [omap list_omap]. fold (omap group l).
    destruct (group x) as [k|]; [|apply IH]. cbn [length].
    destruct (IH (count_one d k)) as [Hle Heq].
    rewrite keys_count_one in Hle, Heq.
    destruct (decide (k ∈ Dict.keys d)) as [Hin|Hin].
    + split; [lia|]. intros Hlen. lia.
    + rewrite length_app in Hle, Heq. cbn [length] in Hle, Heq.
      split; [lia|]. intros Hlen Hd.
      rewrite <- app_assoc in Heq. apply Heq; [lia|].
      apply NoDup_app. split; [done|]. split; [|apply NoDup_singleton].
      intros k' Hk' ->%list_elem_of_singleton. done.
Qed.

(** When the groups are all new and all different, the keys are the
    groups in the order of the items. *)
Lemma keys_count_all_distinct l d :
  NoDup (Dict.keys d ++ omap group l) →
  Dict.keys (count_all group d l) = Dict.keys d ++ omap group l.
Proof.
  revert d. induction l as [|x l IH]; intros d.
  - cbn [count_all foldl omap list_omap]. by rewrite app_nil_r.
  - rewrite count_all_cons. cbn [omap list_omap]. fold (omap group l).
    destruct (group x) as [k|]; [|apply IH]. intros Hnd.
    assert (Hk : k ∉ Dict.keys d).
    { apply NoDup_app in Hnd as (_ & Hdis & _). intros Hin.
      apply (Hdis k Hin). by left. }
    rewrite IH; rewrite keys_count_one, decide_False by done.
    + by rewrite <- app_assoc.
    + by rewrite <- app_assoc.
Qed.

(** The keys are the groups that occur. *)
Lemma keys_count_all_elem l g :
  g ∈ Dict.keys (count_all group [] l) ↔ g ∈ omap group l.
Proof.
  rewrite <- occurrences_pos.
  assert (Hget := get_count_all l [] g). cbn [Dict.get] in Hget. split.
  - intros Hin Hz. apply (dict_get_None (count_all group [] l) g); [|done].
    by rewrite Hget, decide_True.
  - intros Hnz.
    destruct (decide (g ∈ Dict.keys (count_all group [] l)))
      as [|Hout]; [done|].
    apply dict_get_None in Hout. rewrite Hget, decide_False in Hout; done.
Qed.

(** The loop keeps one key per group that occurs. *)
Lemma length_count_all l :
  length (count_all group [] l) = length (remove_dups (omap group l)).
Proof.
  transitivity (length (Dict.keys (count_all group [] l)));
    [unfold Dict.keys; by rewrite length_fmap|].
  apply Permutation_length, NoDup_Permutation.
  - apply keys_count_all_NoDup, NoDup_nil_2.
  - apply NoDup_remove_dups.
  - intros g. by rewrite keys_count_all_elem, elem_of_remove_dups.
Qed.

(** The items of the dictionary are the groups that occur, each with the
    number of its items. *)
Lemma elem_of_count_all l g n :
  (g, n) ∈ count_all group [] l
  ↔ n = occurrences group g l ∧ (0 < n)%Z.
Proof.
  rewrite <- dict_get_Some by apply keys_count_all_NoDup, NoDup_nil_2.
  rewrite get_count_all. cbn [Dict.get].
  pose proof (occurrences_nonneg g l).
  destruct (decide (occurrences group g l = 0%Z)) as [E|E].
  - split; [done|]. intros [-> ?]. lia.
  - split; [intros [= <-]; split; [done|lia]|]. by intros [-> _].
Qed.

End Counts.

(** ** Site names *)

Section SiteNames.
Implicit Types (names listing : list str) (g : str).

(** X12.  [simplify_site_names] counts the names by site: the dictionary
    it returns holds each site once, a site that no name matches is no
    key of it, and the value of a site is the number of names of that
    site; a name that the pattern does not match is counted nowhere. *)
Theorem simplify_site_names_counts names :
  NoDup (Dict.keys (simplify_site_names names))
  ∧ (∀ g, g ∈ Dict.keys (simplify_site_names names)
          ↔ ∃ name, name ∈ names ∧ Re.site name = Some g)
  ∧ ∀ g, Dict.get (simplify_site_names names) g
         = if decide (occurrences Re.site g names = 0%Z) then None
           else Some (occurrences Re.site g names).
Proof.
  change (simplify_site_names names) with (count_all Re.site [] names).
  split; [apply keys_count_all_NoDup, NoDup_nil_2|].
  split.
  - intros g. by rewrite keys_count_all_elem, list_elem_of_omap.
  - intros g. by rewrite get_count_all.
Qed.

End SiteNames.

(** ** Loaders *)

Section LoadSites.
Context {Recording : Type} (load_recording : str → Recording).
Implicit Types (listing paths names : list str) (dir : str).
Implicit Types (recs : Dict.dict str Recording).

(** The loop fails at the first index that has no site name. *)
Lemma load_sites_short paths names dir a n recs :
  a ≤ length names < a + n →
  each (seq a n) (load_site load_recording paths names dir) recs
  = Raised ListIndexError.
Proof.
  revert a recs. induction n as [|n IH]; intros a recs Hlen; [lia|].
  cbn [seq each]. unfold load_site at 1.
  destruct (paths !! a) as [entry|]; [|done].
  destruct (names !! a) as [name|] eqn:Hname; [|done].
  apply lookup_lt_Some in Hname. apply IH. lia.
Qed.

Lemma omap_length_all {X Y : Type} (f : X → option Y) (l : list X) :
  length (omap f l) ≤ length l
  ∧ (length (omap f l) = length l ↔ Forall (λ x, is_Some (f x)) l).
Proof.
  induction l as [|x l [Hle Heq]]; [by split|].
  cbn [omap list_omap]. fold (omap f l).
  destruct (f x) as [y|] eqn:Hx; cbn [length].
  - split; [lia|]. rewrite Forall_cons, <- Heq, Hx. split.
    + intros Hlen. split; [done|lia].
    + intros [_ Hlen]. lia.
  - split; [lia|]. split; [lia|].
    intros [[? ?] _]%Forall_cons. congruence.
Qed.

(** With a site for every entry, and sites that are new and different,
    the loop stores the recording of each entry under its site, in the
    order of the entries. *)
Lemma load_sites_all dir seen todo recs :
  Forall (λ entry, is_Some (Re.site entry)) (seen ++ todo) →
  NoDup (Dict.keys recs ++ omap Re.site todo) →
  each (seq (length seen) (length todo))
    (load_site load_recording (seen ++ todo)
       (omap Re.site (seen ++ todo)) dir) recs
  = Returned
      (recs ++ omap (λ entry,
                       g ← Re.site entry;
                       Some (g, load_datafile load_recording
                                  (Os.join dir entry))) todo).
Proof.
  revert seen recs.
  induction todo as [|entry todo IH]; intros seen recs Hall Hnd.
  - cbn. by rewrite app_nil_r.
  - assert (Hseen : length (omap Re.site seen) = length seen).
    { apply omap_length_all. by apply Forall_app in Hall as [? _]. }
    assert (Hentry : is_Some (Re.site entry)).
    { apply Forall_app in Hall as [_ Htodo]. by apply Forall_cons in Htodo as [? _]. }
    destruct Hentry as [g Hg].
    cbn [length seq each]. unfold load_site at 1.
    rewrite list_lookup_middle by done.
    rewrite omap_app. cbn [omap list_omap]. rewrite Hg.
    rewrite list_lookup_middle by done.
    cbn [omap list_omap] in Hnd. rewrite Hg in Hnd.
    assert (Hnew : g ∉ Dict.keys recs).
    { apply NoDup_app in Hnd as (_ & Hdis & _). intros Hin.
      apply (Hdis _ Hin). by left. }
    rewrite dict_set_new by done.
    specialize (IH (seen ++ [entry])
                  (recs ++ [(g, load_datafile load_recording
                                  (Os.join dir entry))])).
    rewrite length_app, Nat.add_1_r, <- app_assoc in IH.
    cbn [app] in IH. rewrite omap_app in IH. cbn [omap list_omap] in IH.
    rewrite Hg in IH. rewrite <- app_assoc in IH. cbn [app] in IH.
    rewrite IH; [|done|].
    + done.
    + unfold Dict.keys in *. rewrite fmap_app, <- app_assoc. done.
Qed.

(** X13.  [load_single_sites] returns only when every entry of the
    directory matches the site pattern, no two entries have the same
    site, and one of the sites is ["ARM031a"]: then it returns the
    recording of each entry, loaded from the directory path joined with
    the entry, under the site of the entry and in the order of the
    listing.  When an entry has no site or two entries share one, the
    call fails by indexing the list of site names out of range; otherwise,
    without the site ["ARM031a"], it fails with a key error. *)
Theorem load_single_sites_outcome listing dir :
  let sites := omap Re.site listing in
  let loaded :=
    omap (λ entry,
            g ← Re.site entry;
            Some (g, load_datafile load_recording (Os.join dir entry)))
      listing in
  load_single_sites load_recording listing dir
  = if decide (Forall (λ entry, is_Some (Re.site entry)) listing
               ∧ NoDup sites)
    then if decide (txt "ARM031a" ∈ sites) then Returned loaded
         else Raised (KeyError (txt "ARM031a"))
    else Raised ListIndexError.
Proof.
  intros sites loaded. unfold load_single_sites.
  change (simplify_site_names listing) with (count_all Re.site [] listing).
  destruct (keys_count_all_length Re.site listing []) as [Hle Heq].
  destruct (omap_length_all Re.site listing) as [Hle' Heq'].
  fold sites in Hle, Heq, Hle', Heq'.
  cbn [Dict.keys fmap list_fmap length] in Hle, Heq.
  destruct (decide (Forall (λ entry, is_Some (Re.site entry)) listing
                    ∧ NoDup sites)) as [[Hall Hnd]|Hnot].
  - rewrite (keys_count_all_distinct Re.site listing []) by done.
    set (run := each _ _ _).
    assert (Hrun : run = Returned loaded)
      by (by apply (load_sites_all dir [] listing [])).
    rewrite Hrun. clear run Hrun.
    assert (Hkeys : Dict.keys loaded = sites).
    { unfold loaded, sites, Dict.keys. clear -Hall.
      induction Hall as [|x l [g Hg] _ IH]; [done|].
      cbn [omap list_omap]. rewrite Hg. cbn. f_equal. exact IH. }
    destruct (Dict.get loaded (txt "ARM031a")) as [rec|] eqn:Hget.
    + rewrite decide_True; [done|].
      destruct (decide (txt "ARM031a" ∈ sites)) as [|Hout]; [done|].
      rewrite <- Hkeys in Hout. apply dict_get_None in Hout. congruence.
    + rewrite decide_False; [done|].
      apply dict_get_None in Hget. by rewrite <- Hkeys.
  - unfold range. rewrite load_sites_short; [done|]. split; [lia|].
    cbn [Nat.add].
    destruct (decide (length (Dict.keys (count_all Re.site [] listing))
                      = length listing)) as [E|E]; [|lia].
    destruct Hnot. split; [apply Heq'; lia|].
    apply (Heq ltac:(lia) (NoDup_nil_2)).
Qed.

End LoadSites.

(** ** Stimulus listings *)

Section Sorting.
Implicit Types (x y : str * Z) (l : list (str * Z)).

Lemma insert_by_count_perm x l : insert_by_count x l ≡ₚ x :: l.
Proof.
  induction l as [|y l IH]; [done|]. cbn [insert_by_count].
  destruct (x.2 <? y.2)%Z; [|done]. rewrite IH. apply Permutation_swap.
Qed.

Lemma sorted_by_count_perm l : sorted_by_count l ≡ₚ l.
Proof.
  induction l as [|x l IH]; [done|]. cbn [sorted_by_count foldr].
  fold (sorted_by_count l). by rewrite insert_by_count_perm, IH.
Qed.

Lemma insert_by_count_descending x l :
  descending l → descending (insert_by_count x l).
Proof.
  induction l as [|y l IH]; [by split|]. intros [Hy Hl].
  cbn [insert_by_count]. destruct (x.2 <? y.2)%Z eqn:E.
  - apply Z.ltb_lt in E. split; [|by apply IH].
    rewrite insert_by_count_perm. constructor; [lia|done].
  - apply Z.ltb_ge in E. split; [|by split].
    constructor; [done|]. eapply Forall_impl; [exact Hy|].
    intros z Hz. simpl in *. lia.
Qed.

Lemma sorted_by_count_descending l : descending (sorted_by_count l).
Proof.
  induction l as [|x l IH]; [done|]. cbn [sorted_by_count foldr].
  by apply insert_by_count_descending.
Qed.

(** In a listing by decreasing count, the count of an item is at least
    the count of every item that comes after the first [n]. *)
Lemma descending_take_drop l n x y :
  descending l → x ∈ take n l → y ∈ drop n l → (y.2 ≤ x.2)%Z.
Proof.
  revert n. induction l as [|z l IH]; intros n Hl Hx Hy.
  - rewrite take_nil in Hx. by apply elem_of_nil in Hx.
  - destruct n as [|n]; [by apply elem_of_nil in Hx|].
    destruct Hl as [Hz Hl]. cbn [take drop] in Hx, Hy.
    apply elem_of_cons in Hx as [->|Hx]; [|by apply (IH n)].
    rewrite Forall_forall in Hz. apply Hz.
    eapply elem_of_sublist; [done|apply sublist_drop].
Qed.

Lemma descending_take l n : descending l → descending (take n l).
Proof.
  revert n. induction l as [|z l IH]; intros n Hl; [by rewrite take_nil|].
  destruct n as [|n]; [done|]. destruct Hl as [Hz Hl]. cbn [take].
  split; [by apply Forall_take|by apply IH].
Qed.

End Sorting.

Section Listing.
Context {Recording : Type} (load_recording : str → Recording).
Context (stim_epochs : Recording → list str).
Implicit Types (site : str) (top_n : Z) (val_epochs : list str).

Lemma not_found_cons val val_epochs :
  not_found (val :: val_epochs)
  = (if decide (Re.excerpt val = None) then txt "Not found" ++ [nl] else [])
    ++ not_found val_epochs.
Proof.
  unfold not_found. rewrite filter_cons.
  by destruct (decide (Re.excerpt val = None)).
Qed.

(** The loop over the epoch names: the counts by excerpt, and one line
    per name without excerpt. *)
Lemma stim_loop val_epochs stim out :
  foldl (λ '(stim, out) val,
           match Re.excerpt val with
           | Some text => (count_one stim text, out)
           | None => (stim, out ++ txt "Not found" ++ [nl])
           end) (stim, out) val_epochs
  = (count_all Re.excerpt stim val_epochs, out ++ not_found val_epochs).
Proof.
  revert stim out. induction val_epochs as [|val val_epochs IH];
    intros stim out.
  - cbn. by rewrite app_nil_r.
  - cbn [foldl]. rewrite count_all_cons, not_found_cons.
    destruct (Re.excerpt val) as [text|].
    + rewrite IH. by rewrite decide_False.
    + rewrite IH, decide_True by done. by rewrite <- !app_assoc.
Qed.


(** X15.  For a [top_n] strictly between 0 and the number of different
    excerpts, [single_site_similar_stim] prints the lines ["Not found"]
    and then [top_n] items, each an excerpt with the number of epoch
    names that hold it: no excerpt twice, by decreasing number, and no
    excerpt that is left out occurs more often than one that is
    printed. *)
Theorem single_site_similar_stim_top site top_n :
  let val_epochs :=
    stim_epochs (load_datafile load_recording
                   (Os.join (txt "A1_single_sites") site)) in
  let distinct :=
    Z.of_nat (length (remove_dups (omap Re.excerpt val_epochs))) in
  (0 < top_n < distinct)%Z →
  ∃ top,
    single_site_similar_stim load_recording stim_epochs site top_n
    = (not_found val_epochs ++ concat (show_item <$> top) ++ [nl],
       Returned tt)
    ∧ Z.of_nat (length top) = top_n
    ∧ NoDup top.*1
    ∧ (∀ s n, (s, n) ∈ top →
         n = occurrences Re.excerpt s val_epochs ∧ (0 < n)%Z)
    ∧ descending top
    ∧ (∀ s x, x ∈ top → s ∉ top.*1 →
         (occurrences Re.excerpt s val_epochs ≤ x.2)%Z).
Proof.
  intros val_epochs distinct Hn.
  set (stim := count_all Re.excerpt [] val_epochs).
  set (sorted_stim := sorted_by_count stim).
  assert (Hperm : sorted_stim ≡ₚ stim) by apply sorted_by_count_perm.
  assert (Hlen : Z.of_nat (length sorted_stim) = distinct).
  { rewrite (Permutation_length Hperm).
    unfold distinct, stim. by rewrite length_count_all. }
  assert (Hitem : ∀ s n, (s, n) ∈ sorted_stim
                         ↔ n = occurrences Re.excerpt s val_epochs
                           ∧ (0 < n)%Z).
  { intros s n. rewrite Hperm. apply elem_of_count_all. }
  exists (take (Z.to_nat top_n) sorted_stim).
  split.
  { unfold single_site_similar_stim. fold val_epochs.
    rewrite stim_loop. fold stim sorted_stim. cbn [app].
    rewrite Hlen, decide_True by done.
    change (slice None (Some top_n) sorted_stim)
      with (slice (Some 0%Z) (Some top_n) sorted_stim).
    replace top_n with (Z.of_nat (Z.to_nat top_n)) at 1 by lia.
    by rewrite slice_prefix. }
  split; [rewrite length_take; lia|].
  split.
  { rewrite fmap_take. eapply sublist_NoDup; [|apply sublist_take].
    rewrite Hperm. apply (keys_count_all_NoDup Re.excerpt val_epochs []).
    apply NoDup_nil_2. }
  split.
  { intros s n Hin. apply Hitem.
    eapply elem_of_sublist; [done|apply sublist_take]. }
  split; [apply descending_take, sorted_by_count_descending|].
  intros s [s' n'] Hx Hs. cbn [snd].
  assert (Hx' : (s', n') ∈ sorted_stim)
    by (eapply elem_of_sublist; [done|apply sublist_take]).
  apply Hitem in Hx' as [_ Hpos].
  pose proof (occurrences_nonneg Re.excerpt s val_epochs) as Hocc.
  destruct (decide (occurrences Re.excerpt s val_epochs = 0%Z)) as [E|E];
    [lia|].
  assert (Hin : (s, occurrences Re.excerpt s val_epochs) ∈ sorted_stim)
    by (apply Hitem; split; [done|lia]).
  rewrite <- (take_drop (Z.to_nat top_n) sorted_stim) in Hin.
  apply elem_of_app in Hin as [Hin|Hin].
  - destruct Hs. apply list_elem_of_fmap.
    by exists (s, occurrences Re.excerpt s val_epochs).
  - apply (descending_take_drop sorted_stim (Z.to_nat top_n) (s', n')
             (s, occurrences Re.excerpt s val_epochs));
      [apply sorted_by_count_descending|done..].
Qed.

End Listing.

Lemma single_site_similar_stim_top_witness :
  ∃ top,
    single_site_similar_stim (λ _, example_epochs) id (txt "ARM031a.tgz") 1
    = (not_found example_epochs ++ concat (show_item <$> top) ++ [nl],
       Returned tt)
    ∧ Z.of_nat (length top) = 1%Z
    ∧ descending top.
Proof.
  destruct (single_site_similar_stim_top (λ _, example_epochs) id
              (txt "ARM031a.tgz") 1) as (top & Hout & Hlen & _ & _ & Hdesc & _);
    [vm_compute; split; reflexivity|].
  by exists top.
Defined.

(** On the example the call prints the line of the name without excerpt
    and the most frequent excerpt. *)
Example single_site_similar_stim_example :
  single_site_similar_stim (λ _, example_epochs) id (txt "ARM031a.tgz") 1
  = (txt "Not found" ++ [nl] ++ txt "(cat: 2) | " ++ [nl], Returned tt).
Proof. vm_compute. reflexivity. Qed.

(** ** Paths of the data files *)

Section DataFiles.
Context {Recording : Type} (load_recording : str → Recording).

(** X16.  [load_datafile] loads a relative path from ["file://"] followed
    by the path, and an absolute path from the path itself: joined to an
    absolute path, the scheme is dropped. *)
Theorem load_datafile_path (path : str) :
  load_datafile load_recording path
  = load_recording (if decide (head path = Some "/"%char) then path
                    else txt "file://" ++ path).
Proof.
  unfold load_datafile, Os.join, startswith.
  destruct path as [|c path]; [done|].
  change (take (length (txt "/")) (c :: path)) with [c].
  change (txt "/") with ["/"%char]. cbn [head].
  destruct (decide (Some c = Some "/"%char)) as [[= ->]|Hc].
  - by rewrite bool_decide_eq_true_2 by done.
  - rewrite bool_decide_eq_false_2 by (intros [= ->]; done). done.
Qed.

End DataFiles.
